(** * kudos_bot: the kudos recognition-and-ledger engine

    A shallow embedding of [main.py] and [gemini_message.py]:
    - Python [str] values are lists of Unicode code points;
    - the compiled pattern [MENTION_PLUS_PATTERN] is a term of a small
      regular-expression syntax, run by a backtracking matcher with the
      ordered-choice semantics of Python's [re] module;
    - the two SQLite tables are a finite map (the [kudos] table, keyed by
      its primary key) and a list of rows (the append-only [kudos_log]);
    - the Slack handler runs in a state-and-exception monad over a world
      that holds the database, the replies sent so far and the answers of
      the external collaborators (storage availability, the text
      generation service, the random number generator).
    Console output ([print]) is not part of the world, and counts are
    unbounded integers (SQLite's are 64-bit). *)

From Stdlib Require Import ZArith NArith Ascii String List DecimalString.
From stdpp Require Import base option list sorting gmap.

Local Open Scope Z_scope.

(** ** Python strings *)

Module PyStr.

(** A Python [str] is a sequence of code points. *)
Abbreviation str := (list N) (only parsing).

(** An ASCII literal as a Python string. *)
Definition py (s : string) : str :=
  List.map N_of_ascii (list_ascii_of_string s).

(** One ASCII character as a code point. *)
Definition ch (a : ascii) : N := N_of_ascii a.
Arguments ch : simpl never.

(** [c in l] for a list of inclusive code point ranges. *)
Fixpoint in_ranges (l : list (N * N)) (c : N) : bool :=
  match l with
  | [] => false
  | (lo, hi) :: l' => ((lo <=? c) && (c <=? hi))%N || in_ranges l' c
  end.

(** The characters for which [str.isspace] holds; [\s] in a [str] pattern
    and [str.strip()] without arguments use the same set. *)
Definition whitespace_ranges : list (N * N) :=
  [ (9, 13); (28, 32); (133, 133); (160, 160); (5760, 5760); (8192, 8202);
    (8232, 8233); (8239, 8239); (8287, 8287); (12288, 12288) ]%N.

Definition is_space (c : N) : bool := in_ranges whitespace_ranges c.
Arguments is_space : simpl never.

(** The line feed, the only character that [.] does not match. *)
Definition LF : N := 10%N.

(** The longest prefix of [s] whose characters satisfy [p], and the rest. *)
Fixpoint while_ (p : N -> bool) (s : str) : str :=
  match s with
  | c :: s' => if p c then c :: while_ p s' else []
  | [] => []
  end.

Fixpoint after (p : N -> bool) (s : str) : str :=
  match s with
  | c :: s' => if p c then after p s' else s
  | [] => []
  end.

(** [s.lstrip()] *)
Definition lstrip (s : str) : str := after is_space s.

(** [s.rstrip()] *)
Definition rstrip (s : str) : str := rev (lstrip (rev s)).

(** [s.strip()] *)
Definition strip (s : str) : str := rstrip (lstrip s).

(** Truthiness of an optional string: [None] and [""] are falsy. *)
Definition truthy (o : option str) : bool :=
  match o with
  | Some (_ :: _) => true
  | _ => false
  end.

(** [str(n)] for an integer: the decimal numeral. *)
Definition str_of_int (n : Z) : str := py (NilZero.string_of_int (Z.to_int n)).

End PyStr.
Export PyStr.

(** ** The regular expressions of [re], as far as the pattern needs them *)

Module Re.

(** Repetition is over one-character items only, which is all that
    [MENTION_PLUS_PATTERN] uses ([[A-Z0-9]+], [\s*], [.*?]). *)
Inductive regex : Type :=
| Eps                                   (* the empty pattern *)
| Lit (c : N)                           (* a literal character *)
| Class (p : N -> bool)                 (* a set, [\s] or [.] *)
| Cat (r1 r2 : regex)                   (* r1r2 *)
| Alt (r1 r2 : regex)                   (* r1|r2 *)
| Star (greedy : bool) (p : N -> bool)  (* p* (greedy) and p*? (lazy) *)
| Group (i : nat) (r : regex)           (* a capturing group, numbered i *)
| Ahead (r : regex)                     (* (?=r) *)
| Eos.                                  (* $ without re.MULTILINE *)

(** [p+] tries the longest repetition first, like [pp*]. *)
Definition Plus (p : N -> bool) : regex := Cat (Class p) (Star true p).

Fixpoint cat_all (l : list regex) : regex :=
  match l with
  | [] => Eps
  | [r] => r
  | r :: l' => Cat r (cat_all l')
  end.

(** The groups captured so far: group number and captured text, the most
    recent capture first. *)
Definition caps : Type := list (nat * str).

Fixpoint group (i : nat) (cs : caps) : str :=
  match cs with
  | [] => []       (* findall reports a group that took no part as '' *)
  | (j, s) :: cs' => if Nat.eqb i j then s else group i cs'
  end.

(** The text consumed between the input [s] and its suffix [s']. *)
Definition consumed (s s' : str) : str :=
  take (length s - length s')%nat s.

(** The backtracking matcher. [s] is the rest of the subject, so the end
    of [s] is the end of the subject; [k] is what remains to be matched.
    Alternatives are tried in the order [re] tries them; the first
    success is the answer. *)
Fixpoint exec (r : regex) (s : str) (cs : caps)
    (k : str -> caps -> option (caps * str)) : option (caps * str) :=
  match r with
  | Eps => k s cs
  | Lit c =>
      match s with
      | x :: s' => if (x =? c)%N then k s' cs else None
      | [] => None
      end
  | Class p =>
      match s with
      | x :: s' => if p x then k s' cs else None
      | [] => None
      end
  | Cat r1 r2 => exec r1 s cs (fun s' cs' => exec r2 s' cs' k)
  | Alt r1 r2 =>
      match exec r1 s cs k with
      | Some res => Some res
      | None => exec r2 s cs k
      end
  | Star true p =>
      (fix more (s : str) : option (caps * str) :=
         match s with
         | x :: s' =>
             if p x then
               match more s' with
               | Some res => Some res
               | None => k s cs
               end
             else k s cs
         | [] => k s cs
         end) s
  | Star false p =>
      (fix more (s : str) : option (caps * str) :=
         match k s cs with
         | Some res => Some res
         | None =>
             match s with
             | x :: s' => if p x then more s' else None
             | [] => None
             end
         end) s
  | Group i r' =>
      exec r' s cs (fun s' cs' => k s' ((i, consumed s s') :: cs'))
  | Ahead r' =>
      match exec r' s cs (fun s' cs' => Some (cs', s')) with
      | Some (cs', _) => k s cs'
      | None => None
      end
  | Eos =>
      match s with
      | [] => k s cs
      | [x] => if (x =? LF)%N then k s cs else None
      | _ => None
      end
  end.

(** [pattern.match] at the head of [s]: the captures and the rest of the
    subject after the match. *)
Definition match_here (r : regex) (s : str) : option (caps * str) :=
  exec r s [] (fun s' cs => Some (cs, s')).

(** [pattern.findall] for a pattern with two groups: the matches from left
    to right, each as the pair of its groups. The scan resumes where the
    last match ended; [skip] counts the characters of the last match still
    to be passed. After an empty match the scan moves on by one character
    (the pattern of this program has no empty match). *)
Fixpoint scan (r : regex) (skip : nat) (s : str) : list (str * str) :=
  match skip with
  | S n =>
      match s with
      | _ :: s' => scan r n s'
      | [] => []
      end
  | O =>
      match match_here r s with
      | Some (cs, rest) =>
          (group 1 cs, group 2 cs) ::
          match s with
          | _ :: s' => scan r (length s - length rest - 1) s'
          | [] => []
          end
      | None =>
          match s with
          | _ :: s' => scan r 0 s'
          | [] => []
          end
      end
  end.

Definition findall (r : regex) (s : str) : list (str * str) := scan r 0 s.

End Re.
Export Re.

(** ** main.py: the pattern *)

(** [[A-Z0-9]] *)
Definition upper_or_digit (c : N) : bool :=
  in_ranges [ (ch "A", ch "Z"); (ch "0", ch "9") ] c.
Arguments upper_or_digit : simpl never.

(** [.] without re.DOTALL *)
Definition dot (c : N) : bool := negb (c =? LF)%N.

(** [<@[A-Z0-9]+>\s*\+\+], the mention and the marker; the mention's name
    is group 1 when [g] is true (the head of the pattern) and is not
    captured when [g] is false (inside the lookahead). *)
Definition mention_plus (g : bool) : regex :=
  cat_all [ Lit (ch "<"); Lit (ch "@");
            (if g then Group 1 (Plus upper_or_digit) else Plus upper_or_digit);
            Lit (ch ">"); Star true is_space; Lit (ch "+"); Lit (ch "+") ].

(** [re.compile(r"<@([A-Z0-9]+)>\s*\+\+\s*(.*?)(?=<@[A-Z0-9]+>\s*\+\+|$)")] *)
Definition MENTION_PLUS_PATTERN : regex :=
  cat_all [ mention_plus true; Star true is_space; Group 2 (Star false dot);
            Ahead (Alt (mention_plus false) Eos) ].

(** ** The extractor in the words of the specification

    A grant is a mention token, optional whitespace and the marker; the
    note of a grant is the text from its marker to the next grant or to
    the end of the text. *)

Module Grants.

(** A grant at the head of [s]: the name in the mention and the text
    after the marker. *)
Definition grant_head (s : str) : option (str * str) :=
  match s with
  | a :: b :: s1 =>
      if ((a =? ch "<") && (b =? ch "@"))%N then
        match while_ upper_or_digit s1, after upper_or_digit s1 with
        | (_ :: _) as name, c :: s2 =>
            if (c =? ch ">")%N then
              match lstrip s2 with
              | d :: e :: s3 =>
                  if ((d =? ch "+") && (e =? ch "+"))%N
                  then Some (name, s3) else None
              | _ => None
              end
            else None
        | _, _ => None
        end
      else None
  | _ => None
  end.

Arguments grant_head : simpl never.

Definition is_grant (s : str) : bool :=
  match grant_head s with Some _ => true | None => false end.

(** The text of [s] up to the next grant or the end of [s]. *)
Fixpoint until_grant (s : str) : str :=
  match s with
  | [] => []
  | c :: s' => if is_grant s then [] else c :: until_grant s'
  end.


(** The same, the note without the whitespace that follows the marker. *)
Fixpoint grants (s : str) : list (str * str) :=
  match s with
  | [] => []
  | _ :: s' =>
      match grant_head s with
      | Some (name, rest) =>
          (name, until_grant (lstrip rest)) :: grants s'
      | None => grants s'
      end
  end.

(** The number of well-formed grants of a text. *)
Fixpoint count_grants (s : str) : nat :=
  match s with
  | [] => 0
  | _ :: s' => (if is_grant s then 1 else 0) + count_grants s'
  end.

(** What [(.*?)(?=<@[A-Z0-9]+>\s*\+\+|$)] finds from [s]: the text up to
    the next grant, the end of the text or a line feed that ends the
    text; nothing when another line feed comes first. *)
Fixpoint note_upto (s : str) : option str :=
  match s with
  | [] => Some []
  | c :: s' =>
      if is_grant s then Some []
      else if (c =? LF)%N then
        match s' with [] => Some [] | _ => None end
      else
        match note_upto s' with
        | Some note => Some (c :: note)
        | None => None
        end
  end.

(** No grant starts inside [u] when [u] is followed by [t]. *)
Fixpoint quiet (u t : str) : Prop :=
  match u with
  | [] => True
  | c :: u' => grant_head (c :: u' ++ t) = None /\ quiet u' t
  end.

(** The matches of the pattern from left to right, position by position. *)
Fixpoint grants_matched (s : str) : list (str * str) :=
  match s with
  | [] => []
  | _ :: s' =>
      match grant_head s with
      | Some (name, rest) =>
          match note_upto (lstrip rest) with
          | Some note => (name, note) :: grants_matched s'
          | None => grants_matched s'
          end
      | None => grants_matched s'
      end
  end.

End Grants.
Export Grants.

(** ** main.py: the SQLite store *)

Module Ledger.

(** A row of [kudos_log]. *)
Record log_row : Type := LogRow {
  row_id : Z;                 (* INTEGER PRIMARY KEY AUTOINCREMENT *)
  receiver_id : str;          (* TEXT NOT NULL *)
  giver_id : str;             (* TEXT NOT NULL *)
  message : option str;       (* TEXT *)
  timestamp : N               (* DATETIME DEFAULT CURRENT_TIMESTAMP *)
}.

(** The database file: the table [kudos] maps its primary key [user_id]
    to [count], and [kudos_rowid] gives the rowid under which SQLite keeps
    each of its rows; [kudos_log] is kept in insertion order; [log_seq] is
    the largest [id] the log has handed out. *)
Record database : Type := Database {
  kudos : gmap (list N) Z;
  kudos_rowid : gmap (list N) Z;
  kudos_log : list log_row;
  log_seq : Z
}.

(** The tables that [init_db] creates in a new file. *)
Definition empty_db : database :=
  {| kudos := ∅; kudos_rowid := ∅; kudos_log := []; log_seq := 0 |}.

(** The rowid of a new row of [kudos]: one more than the largest rowid
    in use. *)
Definition next_rowid (d : database) : Z :=
  map_fold (fun _ r m => Z.max r m) 0 (kudos_rowid d) + 1.

(** [INSERT INTO kudos (user_id, count) VALUES (?, 1)
     ON CONFLICT(user_id) DO UPDATE SET count = count + 1]; a row that
    is updated keeps its rowid. *)
Definition upsert_kudos (user_id : str) (d : database) : database :=
  {| kudos :=
       match kudos d !! user_id with
       | Some c => <[user_id := c + 1]> (kudos d)
       | None => <[user_id := 1]> (kudos d)
       end;
     kudos_rowid :=
       match kudos d !! user_id with
       | Some _ => kudos_rowid d
       | None => <[user_id := next_rowid d]> (kudos_rowid d)
       end;
     kudos_log := kudos_log d;
     log_seq := log_seq d |}.

(** [INSERT INTO kudos_log (receiver_id, giver_id, message) VALUES (?, ?, ?)] *)
Definition insert_log (now : N) (receiver giver : str) (msg : option str)
    (d : database) : database :=
  {| kudos := kudos d;
     kudos_rowid := kudos_rowid d;
     kudos_log := kudos_log d ++ [LogRow (log_seq d + 1) receiver giver msg now];
     log_seq := log_seq d + 1 |}.

(** The two statements of [increment_kudos], inside its transaction. *)
Definition increment_statements (now : N) (user_id : str)
    (giver : option str) (msg : option str) (d : database) : database :=
  let d1 := upsert_kudos user_id d in
  match giver with
  | Some ((_ :: _) as g) => insert_log now user_id g msg d1   (* if giver_id: *)
  | _ => d1
  end.

(** [SELECT count FROM kudos WHERE user_id = ?], then
    [row[0] if row else 0]. *)
Definition select_count (user_id : str) (d : database) : Z :=
  match kudos d !! user_id with
  | Some c => c
  | None => 0
  end.

(** [ORDER BY count DESC] *)
Definition count_desc (r1 r2 : str * Z) : Prop := r2.2 <= r1.2.

#[export] Instance count_desc_dec r1 r2 : Decision (count_desc r1 r2).
Proof. unfold count_desc. apply _. Defined.

(** The rowid of the row of a user (0 for a user without one). *)
Definition rowid_of (d : database) (u : str) : Z :=
  default 0 (kudos_rowid d !! u).

(** The order in which SQLite returns the rows for [ORDER BY count DESC]:
    by descending count, and rows with equal counts in the order of the
    table scan, which is the order of their rowids (the order in which
    the rows were inserted). *)
Definition row_order (d : database) (r1 r2 : str * Z) : Prop :=
  r2.2 < r1.2 \/ (r2.2 = r1.2 /\ rowid_of d r1.1 <= rowid_of d r2.1).

#[export] Instance row_order_dec d r1 r2 : Decision (row_order d r1 r2).
Proof. unfold row_order. apply _. Defined.

(** [SELECT user_id, count FROM kudos ORDER BY count DESC LIMIT ?].
    A negative LIMIT means no limit. *)
Definition select_leaderboard (limit : Z) (d : database) : list (str * Z) :=
  let rows := merge_sort (row_order d) (map_to_list (kudos d)) in
  if limit <? 0 then rows else take (Z.to_nat limit) rows.

(** The rows of the log whose receiver is [u]. *)
Definition log_rows_for (u : str) (d : database) : list log_row :=
  List.filter (fun r => bool_decide (receiver_id r = u)) (kudos_log d).

End Ledger.
Export Ledger.

(** ** The world of the bot and its monad *)

Module World.

(** A Python value, for the calls whose result is not of one type. *)
Inductive value : Type :=
| VNone
| VInt (n : Z).

(** The exceptions that the collaborators raise. *)
Inductive exn : Type :=
| SqliteError      (* sqlite3.Error: the database file cannot be used *)
| GenaiError       (* what genai.Client or generate_content raises *)
| IndexError.      (* random.choice of an empty sequence *)

Inductive result (A : Type) : Type :=
| Ok (a : A)
| Raised (e : exn).
Arguments Ok {A} a.
Arguments Raised {A} e.

(** The object that [generate_content] returns, with its [text]. *)
Record response : Type := Response { text : option str }.

(** What a call of the Gemini client does: raise, or return a response
    (or nothing). *)
Inductive api_answer : Type :=
| ApiRaises
| ApiReturns (r : option response).

(** A call of [say]. *)
Record reply : Type := Reply { reply_text : str; reply_thread_ts : option str }.

(** The state that the program reads and writes. The last three fields
    are the answers of the outside world to the coming requests: whether
    the next uses of the database file fail (none listed: they work), the
    next answers of Gemini (none listed: it raises), and the next draws
    of the random number generator (none listed: 0). *)
Record world : Type := World {
  db : database;
  sent : list reply;              (* the calls of say, oldest first *)
  prompts : list str;             (* the prompts sent to Gemini, oldest first *)
  clock : N;                      (* CURRENT_TIMESTAMP *)
  GEMINI_API_KEY : option str;    (* os.getenv("GEMINI_API_KEY") *)
  sqlite_faults : list bool;
  api_answers : list api_answer;
  randoms : list nat
}.

Definition set_db (d : database) (w : world) : world :=
  World d (sent w) (prompts w) (clock w) (GEMINI_API_KEY w)
        (sqlite_faults w) (api_answers w) (randoms w).
Definition set_sent (l : list reply) (w : world) : world :=
  World (db w) l (prompts w) (clock w) (GEMINI_API_KEY w)
        (sqlite_faults w) (api_answers w) (randoms w).
Definition set_prompts (l : list str) (w : world) : world :=
  World (db w) (sent w) l (clock w) (GEMINI_API_KEY w)
        (sqlite_faults w) (api_answers w) (randoms w).
Definition set_sqlite_faults (l : list bool) (w : world) : world :=
  World (db w) (sent w) (prompts w) (clock w) (GEMINI_API_KEY w)
        l (api_answers w) (randoms w).
Definition set_api_answers (l : list api_answer) (w : world) : world :=
  World (db w) (sent w) (prompts w) (clock w) (GEMINI_API_KEY w)
        (sqlite_faults w) l (randoms w).
Definition set_randoms (l : list nat) (w : world) : world :=
  World (db w) (sent w) (prompts w) (clock w) (GEMINI_API_KEY w)
        (sqlite_faults w) (api_answers w) l.

(** Computations that change the world and return or raise. *)
Definition M (A : Type) : Type := world -> result A * world.

Definition ret {A} (a : A) : M A := fun w => (Ok a, w).

Definition bind {A B} (m : M A) (f : A -> M B) : M B := fun w =>
  match m w with
  | (Ok a, w') => f a w'
  | (Raised e, w') => (Raised e, w')
  end.

Definition raise {A} (e : exn) : M A := fun w => (Raised e, w).

(** [try: body except Exception as e: handler] *)
Definition try_except {A} (body : M A) (handler : exn -> M A) : M A := fun w =>
  match body w with
  | (Ok a, w') => (Ok a, w')
  | (Raised e, w') => handler e w'
  end.

Declare Scope bot_scope.
Delimit Scope bot_scope with bot.
Notation "x <- m ;; k" := (bind m (fun x => k))
  (at level 100, m at next level, right associativity) : bot_scope.
Notation "m ;;; k" := (bind m (fun _ => k))
  (at level 100, right associativity) : bot_scope.

(** [for x in l: body x] *)
Fixpoint for_each {A} (l : list A) (body : A -> M unit) : M unit :=
  match l with
  | [] => ret tt
  | x :: l' => bind (body x) (fun _ => for_each l' body)
  end.

(** [with sqlite3.connect(DB_PATH) as conn: ...; conn.commit()]: the
    statements run and commit together, or the connection fails and
    nothing is written. *)
Definition transaction {A} (f : database -> database * A) : M A := fun w =>
  match sqlite_faults w with
  | true :: fs => (Raised SqliteError, set_sqlite_faults fs w)
  | false :: fs =>
      let (d, a) := f (db w) in (Ok a, set_db d (set_sqlite_faults fs w))
  | [] => let (d, a) := f (db w) in (Ok a, set_db d w)
  end.

(** [say(text=..., thread_ts=...)] *)
Definition say (t : str) (thread_ts : option str) : M unit := fun w =>
  (Ok tt, set_sent (sent w ++ [Reply t thread_ts]) w).

(** [random.choice(l)] *)
Definition random_choice {A} (l : list A) : M A := fun w =>
  match l with
  | [] => (Raised IndexError, w)
  | x :: _ =>
      match randoms w with
      | r :: rs => (Ok (nth (r mod length l) l x), set_randoms rs w)
      | [] => (Ok x, w)
      end
  end.

(** [genai.Client(api_key=...).models.generate_content(model=MODEL,
    contents=prompt)] *)
Definition generate_content (prompt : str) : M (option response) := fun w =>
  let w1 := set_prompts (prompts w ++ [prompt]) w in
  match api_answers w with
  | ApiReturns r :: rest => (Ok r, set_api_answers rest w1)
  | ApiRaises :: rest => (Raised GenaiError, set_api_answers rest w1)
  | [] => (Raised GenaiError, w1)
  end.

End World.
Export World.

Local Open Scope bot_scope.

(** ** main.py: the store's functions *)

(** [increment_kudos(user_id, giver_id=None, message=None)]; the function
    has no [return], so a call evaluates to [None]. *)
Definition increment_kudos (user_id : str) (giver_id : option str)
    (message : option str) : M value := fun w =>
  transaction
    (fun d => (increment_statements (clock w) user_id giver_id message d, VNone))
    w.

(** [get_kudos(user_id)] *)
Definition get_kudos (user_id : str) : M Z :=
  transaction (fun d => (d, select_count user_id d)).

(** [get_leaderboard(limit=10)] *)
Definition get_leaderboard (limit : Z) : M (list (str * Z)) :=
  transaction (fun d => (d, select_leaderboard limit d)).

(** ** gemini_message.py *)

Definition fallback_messages : list str :=
  [ py "Keep up the amazing work! " ++ [287; 376; 338; 376]%N;
    py "You're crushing it! " ++ [287; 376; 353; 8364]%N;
    py "Excellence recognized! " ++ [287; 376; 8216]%N;
    py "Your awesomeness is showing! " ++ [226; 339; 168]%N;
    py "Making magic happen! " ++ [287; 376; 175]%N;
    py "Stellar performance! " ++ [226; 173]%N;
    py "You're on fire! " ++ [287; 376; 8221; 165]%N;
    py "Absolutely brilliant! " ++ [287; 376; 8217]%N;
    py "Shining bright! " ++ [287; 376; 8217; 171]%N;
    py "Legendary work! " ++ [287; 376; 8224]%N ].

(** [get_fallback_message()] *)
Definition get_fallback_message : M str := random_choice fallback_messages.

(** [sep.join(l)] *)
Fixpoint join (sep : str) (l : list str) : str :=
  match l with
  | [] => []
  | [x] => x
  | x :: l' => x ++ sep ++ join sep l'
  end.

(** The context of the prompt, from the arguments that are truthy. *)
Definition context_parts (receiver_name giver_name kudos_message : option str)
    (kudos_count : option Z) : list str :=
  (if truthy giver_name then [py "from " ++ default [] giver_name] else []) ++
  (if truthy receiver_name then [py "to " ++ default [] receiver_name] else []) ++
  (if truthy kudos_message
   then [py "with the message: '" ++ default [] kudos_message ++ py "'"]
   else []) ++
  (match kudos_count with
   | Some n =>
       if n =? 0 then []
       else [py "bringing their total to " ++ str_of_int n ++ py " kudos"]
   | None => []
   end).

Definition prompt_for (context : str) : str :=
  py "Generate a short, encouraging, positive, and witty message (1-2 sentences max) " ++ [LF] ++
  py "to celebrate someone receiving kudos " ++ context ++ py ". " ++ [LF; LF] ++
  py "The message should be:" ++ [LF] ++
  py "- Uplifting and celebratory" ++ [LF] ++
  py "- Professional but friendly" ++ [LF] ++
  py "- Include an appropriate emoji" ++ [LF] ++
  py "- Be concise (under 100 characters if possible)" ++ [LF] ++
  py "- Witty or clever when appropriate" ++ [LF; LF] ++
  py "Just return the message itself, nothing else.".

(** The body of the [try] of [generate_kudos_message]. *)
Definition generate_kudos_message_body
    (receiver_name giver_name kudos_message : option str)
    (kudos_count : option Z) : M str := fun w =>
  if negb (truthy (GEMINI_API_KEY w)) then get_fallback_message w
  else
    let parts :=
      context_parts receiver_name giver_name kudos_message kudos_count in
    let context :=
      match parts with
      | [] => py "for great work"
      | _ => join (py " ") parts
      end in
    (response <- generate_content (prompt_for context) ;;
     match response with
     | Some (Response (Some ((_ :: _) as t))) => ret (strip t)
     | _ => get_fallback_message
     end) w.

(** [generate_kudos_message(receiver_name=None, giver_name=None,
    kudos_message=None, kudos_count=None)] *)
Definition generate_kudos_message
    (receiver_name giver_name kudos_message : option str)
    (kudos_count : option Z) : M str :=
  try_except
    (generate_kudos_message_body receiver_name giver_name kudos_message
       kudos_count)
    (fun _ => get_fallback_message).

(** ** main.py: the message handler *)

(** The fields of a Slack event that the handler reads; [None] is a key
    that the event does not have. *)
Record event : Type := Event {
  ev_user : option str;
  ev_text : option str;
  ev_thread_ts : option str;
  ev_ts : option str
}.

Definition self_grant_text (user : str) : str :=
  py "Nice try <@" ++ user ++ py "> " ++ [240; 376; 732; 339]%N ++
  py " You can" ++ [226; 8364; 8482]%N ++ py "t give kudos to yourself!".

Definition kudos_text (target_user_id : str) (new_count : Z)
    (ai_message : str) : str :=
  py ":sparkles: <@" ++ target_user_id ++ py "> now has *" ++
  str_of_int new_count ++ py "* kudos! " ++ ai_message.

(** [message.strip() if message else None] *)
Definition clean_message (message : str) : option str :=
  match message with
  | [] => None
  | _ => Some (strip message)
  end.

(** The body of the loop over the matches. *)
Definition handle_match (user : str) (thread_ts : option str)
    (m : str * str) : M unit :=
  let (target_user_id, message) := m in
  if bool_decide (target_user_id = user) then
    say (self_grant_text user) thread_ts           (* and continue *)
  else
    let kudos_message := clean_message message in
    (_ <- increment_kudos target_user_id (Some user) kudos_message ;;
     new_count <- get_kudos target_user_id ;;
     ai_message <- generate_kudos_message None None kudos_message
                     (Some new_count) ;;
     say (kudos_text target_user_id new_count ai_message) thread_ts).

(** [event.get("thread_ts") or event.get("ts")] *)
Definition thread_of (e : event) : option str :=
  if truthy (ev_thread_ts e) then ev_thread_ts e else ev_ts e.

(** [handle_message_events(event, say)] *)
Definition handle_message_events (e : event) : M unit :=
  let user := ev_user e in
  let text := default [] (ev_text e) in            (* event.get("text", "") *)
  let thread_ts := thread_of e in
  match text, user with
  | _ :: _, Some ((_ :: _) as u) =>
      for_each (findall MENTION_PLUS_PATTERN text) (handle_match u thread_ts)
  | _, _ => ret tt                                 (* if not text or not user *)
  end.

(** A world with a new database, nothing sent and no answers listed. *)
Definition world0 : world :=
  World empty_db [] [] 0 None [] [] [].


(** ** Texts, calls and worlds used in the statements *)

(** The text of claim C1, with and without a line feed in a note. *)
Definition two_grants : str := py "<@U1> ++ great job <@U2> ++ nice!".

(** The log agrees with the counts: for every user, [count] is the number
    of rows of the log that name the user as receiver. *)
Definition consistent (d : database) : Prop :=
  forall u : str, select_count u d = Z.of_nat (length (log_rows_for u d)).

(** A sequence of calls of [increment_kudos], each with its arguments
    [(user_id, giver_id, message)]; a call that raises leaves the rest of
    the sequence to run, as calls from different events do. *)
Definition run_increments (calls : list (str * option str * option str))
    (w : world) : world :=
  fold_left (fun w c => let '(u, g, m) := c in (increment_kudos u g m w).2)
            calls w.

(** The next [n] uses of the database file work. *)
Definition connections_work (n : nat) (w : world) : bool :=
  forallb negb (take n (sqlite_faults w)).

(** The composer fails inside: no API key, or the client raises, or it
    returns nothing or a response without text. *)
Definition composer_fails (w : world) : bool :=
  negb (truthy (GEMINI_API_KEY w))
  || match api_answers w with
     | [] => true
     | ApiRaises :: _ => true
     | ApiReturns None :: _ => true
     | ApiReturns (Some r) :: _ => negb (truthy (text r))
     end.

(** [w'] differs from [w] at most in what the composer touches: the
    prompts sent, the answers and the draws left. *)
Definition composer_frame (w w' : world) : Prop :=
  db w' = db w /\ sent w' = sent w /\ sqlite_faults w' = sqlite_faults w
  /\ clock w' = clock w.

(** Two worlds without an API key that differ in the next draw of the
    random number generator only. *)
Definition world_draw (r : nat) : world :=
  World empty_db [] [] 0 None [] [] [r].

(** A world whose next use of the database file fails. *)
Definition world_fault : world :=
  World empty_db [] [] 0 None [true] [] [].

(** The message of sender U9 with the text of claim C1. *)
Definition event_two_grants : event :=
  Event (Some (py "U9")) (Some two_grants) None (Some (py "1700000000.000100")).

(** A message of U9 with a grant to U1 in front of a self-grant. *)
Definition event_grant_then_self : event :=
  Event (Some (py "U9")) (Some (py "<@U1> ++ hi <@U9> ++ me")) None
        (Some (py "1700000000.000100")).

(** A message of U9 with a self-grant between two grants. *)
Definition event_self_between : event :=
  Event (Some (py "U9")) (Some (py "<@U1> ++ a <@U9> ++ b <@U2> ++ c")) None
        (Some (py "1700000000.000100")).

(** The self-grant of sender U9. *)
Definition event_self_grant : event :=
  Event (Some (py "U9")) (Some (py "<@U9> ++ thanks")) None
        (Some (py "1700000000.000100")).

(** ** main.py: the handler of mentions of the bot *)

(** [needle in hay] for strings. *)
Fixpoint starts_with (needle hay : str) : bool :=
  match needle, hay with
  | [], _ => true
  | _ :: _, [] => false
  | a :: needle', b :: hay' => (a =? b)%N && starts_with needle' hay'
  end.

Fixpoint contains (needle hay : str) : bool :=
  starts_with needle hay
  || match hay with
     | [] => false
     | _ :: hay' => contains needle hay'
     end.

(** [str.lower] on the letters of ASCII; the handler below takes the
    lower-casing of all of Unicode as a parameter. *)
Definition lower_ascii (s : str) : str :=
  List.map (fun c => if in_ranges [(ch "A", ch "Z")] c then (c + 32)%N else c) s.

Definition no_kudos_text : str :=
  py "No kudos given yet! Be the first to appreciate someone with `@user ++` "
  ++ [240; 376; 381; 8240]%N.

Definition help_text : str :=
  py "Hey there! " ++ [240; 376; 8216; 8249; 10]%N ++
  py "Give someone kudos with `@username ++`" ++ [LF] ++
  py "Or mention me with `leaderboard` to see the top users.".

(** One line of the leaderboard:
    [f"{rank}. <@{user_id}> - {count} kudos\n"] (the dash as the source
    has it). *)
Definition leaderboard_line (rank : Z) (row : str * Z) : str :=
  str_of_int rank ++ py ". <@" ++ row.1 ++ py "> " ++ [226; 8364; 8221]%N ++
  py " " ++ str_of_int row.2 ++ py " kudos" ++ [LF].

(** The lines for [enumerate(rows, start=rank)]. *)
Fixpoint leaderboard_lines (rank : Z) (rows : list (str * Z)) : str :=
  match rows with
  | [] => []
  | row :: rows' => leaderboard_line rank row ++ leaderboard_lines (rank + 1) rows'
  end.

Definition leaderboard_text (rows : list (str * Z)) : str :=
  py ":trophy: *Kudos Leaderboard:*" ++ [LF] ++ leaderboard_lines 1 rows.

(** [show_help_or_leaderboard(event, say)]; [lower] is [str.lower]. *)
Definition show_help_or_leaderboard (lower : str -> str) (e : event) : M unit :=
  let text := lower (default [] (ev_text e)) in
  let thread_ts := thread_of e in
  if contains (py "leaderboard") text then
    (leaderboard <- get_leaderboard 10 ;;
     match leaderboard with
     | [] => say no_kudos_text thread_ts
     | _ => say (leaderboard_text leaderboard) thread_ts
     end)
  else say help_text thread_ts.

(** ** Notions used in the further statements *)

(** No use of the database file that lies ahead fails. *)
Definition storage_ok (w : world) : bool := forallb negb (sqlite_faults w).

(** The matches of a message that are grants to others than the sender. *)
Definition granted (user : str) (ms : list (str * str)) : list (str * str) :=
  List.filter (fun m => negb (bool_decide (m.1 = user))) ms.

(** The increments that a message of [user] with the matches [ms] makes. *)
Definition apply_grants (now : N) (user : str) (ms : list (str * str))
    (d : database) : database :=
  fold_left
    (fun d m => increment_statements now m.1 (Some user) (clean_message m.2) d)
    (granted user ms) d.

(** The reply that belongs to a match. *)
Definition reply_for (user : str) (ts : option str) (m : str * str)
    (r : reply) : Prop :=
  reply_thread_ts r = ts
  /\ if bool_decide (m.1 = user)
     then reply_text r = self_grant_text user
     else exists n s, reply_text r = kudos_text m.1 n s.

(** The ids of the log grow strictly and stay within the sequence. *)
Definition log_ids_ok (d : database) : Prop :=
  0 <= log_seq d
  /\ StronglySorted Z.lt (List.map row_id (kudos_log d))
  /\ Forall (fun r => 0 < row_id r <= log_seq d) (kudos_log d).

(** No row of the log has the giver as its receiver, and no giver is
    empty. *)
Definition no_self_grant (d : database) : Prop :=
  Forall (fun r => receiver_id r <> giver_id r /\ giver_id r <> [])
         (kudos_log d).

(** Every count of the table is at least 1. *)
Definition counts_positive (d : database) : Prop :=
  forall (u : str) (c : Z), kudos d !! u = Some c -> 1 <= c.

(** ** Messages in the format that the comment of the pattern gives *)

(** One grant written as [<@NAME> ++ note]. *)
Definition render_grant (g : str * str) : str :=
  ch "<" :: ch "@" :: g.1 ++ ch ">" :: ch " " :: ch "+" :: ch "+" :: ch " " :: g.2.

(** Several grants, one after the other, as in
    [<@U123> ++ great work <@U456> ++ awesome job]. *)
Fixpoint render_grants (gs : list (str * str)) : str :=
  match gs with
  | [] => []
  | g :: gs' => render_grant g ++ render_grants gs'
  end.

(** A name of upper-case letters and digits, and a note on one line that
    has no [<] and does not start with whitespace. *)
Definition plain_grant (g : str * str) : bool :=
  match g.1 with [] => false | _ => true end
  && forallb upper_or_digit g.1
  && forallb (fun c => dot c && negb (c =? ch "<")%N) g.2
  && match g.2 with [] => true | c :: _ => negb (is_space c) end.

(** * Properties *)

(** ** The definitions on concrete inputs *)

Example findall_adjacent :
  findall MENTION_PLUS_PATTERN (py "<@U1>++<@U2>++") = [(py "U1", []); (py "U2", [])].
Proof. vm_compute. reflexivity. Qed.

Example findall_final_line_feed :
  findall MENTION_PLUS_PATTERN (py "<@U1> ++ a" ++ [LF]) = [(py "U1", py "a")].
Proof. vm_compute. reflexivity. Qed.

Example findall_note_on_next_line :
  findall MENTION_PLUS_PATTERN (py "<@U1> ++" ++ [LF] ++ py "b") = [(py "U1", py "b")].
Proof. vm_compute. reflexivity. Qed.

Example findall_stray_marker :
  findall MENTION_PLUS_PATTERN (py "++ thanks <@U1> + +") = [].
Proof. vm_compute. reflexivity. Qed.

Example strip_both_ends : strip (py "  great job  ") = py "great job".
Proof. vm_compute. reflexivity. Qed.

Example str_of_int_12 : str_of_int 12 = py "12".
Proof. vm_compute. reflexivity. Qed.

Example grant_head_blank :
  grant_head (py "<@U1>  ++x") = Some (py "U1", py "x").
Proof. vm_compute. reflexivity. Qed.

Example two_replies :
  let r := handle_message_events event_two_grants world0 in
  r.1 = Ok tt
  /\ List.map reply_text (sent r.2)
     = [ kudos_text (py "U1") 1 (py "Keep up the amazing work! " ++ [287; 376; 338; 376]%N);
         kudos_text (py "U2") 1 (py "Keep up the amazing work! " ++ [287; 376; 338; 376]%N) ]
  /\ List.map message (kudos_log (db r.2))
     = [ Some (py "great job"); Some (py "nice!") ]
  /\ select_leaderboard 1 (db r.2) = [(py "U1", 1)]
  /\ select_leaderboard 10 (db r.2) = [(py "U1", 1); (py "U2", 1)].
Proof. cbv zeta. repeat split; vm_compute; reflexivity. Qed.


(** ** Strings *)

Section StringFacts.

Variable p : N -> bool.

Lemma while_after (s : str) : while_ p s ++ after p s = s.
Proof.
  induction s as [|c s IH]; simpl; [reflexivity|].
  destruct (p c); simpl; [now rewrite IH | reflexivity].
Qed.

Lemma while_all (s : str) : forallb p (while_ p s) = true.
Proof.
  induction s as [|c s IH]; simpl; [reflexivity|].
  destruct (p c) eqn:E; simpl; [now rewrite E | reflexivity].
Qed.

Lemma after_head (s : str) c t : after p s = c :: t -> p c = false.
Proof.
  induction s as [|x s IH]; simpl; [discriminate|].
  destruct (p x) eqn:E; [exact IH|].
  intros [= -> ->]. exact E.
Qed.

Lemma after_length (s : str) : (length (after p s) <= length s)%nat.
Proof.
  induction s as [|x s IH]; simpl; [lia|].
  destruct (p x); simpl; lia.
Qed.

Lemma after_run (u t : str) :
  forallb p u = true -> after p (u ++ t) = after p t.
Proof.
  induction u as [|x u IH]; simpl; [reflexivity|].
  intros [Hx Hu]%andb_prop. now rewrite Hx, IH.
Qed.

End StringFacts.

Lemma consumed_app (u t : str) : consumed (u ++ t) t = u.
Proof.
  unfold consumed. rewrite length_app.
  replace (length u + length t - length t)%nat with (length u) by lia.
  now rewrite take_app_length.
Qed.

Lemma consumed_while p (s : str) : consumed s (after p s) = while_ p s.
Proof.
  rewrite <- (while_after p s) at 1. apply consumed_app.
Qed.

Lemma consumed_cons x (s t : str) :
  (length t <= length s)%nat -> consumed (x :: s) t = x :: consumed s t.
Proof.
  intros H. unfold consumed. simpl length.
  replace (S (length s) - length t)%nat with (S (length s - length t)) by lia.
  reflexivity.
Qed.

(** ** The matcher on the repetitions of the pattern *)

Section StarFacts.

Variables (p : N -> bool) (cs : caps) (k : str -> caps -> option (caps * str)).

(** A greedy repetition takes the whole run when what follows cannot
    start inside the run. *)
Lemma exec_star_greedy_commit (s : str) :
  (forall x t, p x = true -> k (x :: t) cs = None) ->
  exec (Star true p) s cs k = k (after p s) cs.
Proof.
  intros Hk. induction s as [|x s IH]; simpl; [reflexivity|].
  simpl in IH. destruct (p x) eqn:E; [|reflexivity].
  rewrite IH. destruct (k (after p s) cs); [reflexivity|].
  now apply Hk.
Qed.

(** A greedy repetition tries the whole run first. *)
Lemma exec_star_greedy_first (s : str) res :
  k (after p s) cs = Some res -> exec (Star true p) s cs k = Some res.
Proof.
  induction s as [|x s IH]; simpl; [easy|].
  simpl in IH. destruct (p x) eqn:E; [|easy].
  intros H. now rewrite (IH H).
Qed.

(** It fails when what follows fails wherever the run is cut. *)
Lemma exec_star_greedy_none (s : str) :
  (forall u t, s = u ++ t -> forallb p u = true -> k t cs = None) ->
  exec (Star true p) s cs k = None.
Proof.
  induction s as [|x s IH]; simpl; intros Hk.
  - now apply (Hk [] []).
  - simpl in IH. destruct (p x) eqn:E.
    + rewrite IH.
      * now apply (Hk [] (x :: s)).
      * intros u t -> Hu. apply (Hk (x :: u) t); [reflexivity|].
        simpl. now rewrite E.
    + now apply (Hk [] (x :: s)).
Qed.

End StarFacts.

(** ** The mention and the marker *)

Lemma grant_head_shape (s name rest : str) :
  grant_head s = Some (name, rest) ->
  exists ws,
    s = ch "<" :: ch "@" :: name ++ ch ">" :: ws ++ ch "+" :: ch "+" :: rest
    /\ name <> []
    /\ forallb upper_or_digit name = true
    /\ forallb is_space ws = true.
Proof.
  unfold grant_head.
  destruct s as [|a [|b s1]]; try discriminate.
  destruct ((a =? ch "<") && (b =? ch "@"))%N eqn:Hab; [|discriminate].
  apply andb_prop in Hab as [->%N.eqb_eq ->%N.eqb_eq].
  pose proof (while_after upper_or_digit s1) as Hs1.
  pose proof (while_all upper_or_digit s1) as Hall.
  destruct (while_ upper_or_digit s1) as [|n0 name'] eqn:Hw; [discriminate|].
  destruct (after upper_or_digit s1) as [|c s2] eqn:Ha; [discriminate|].
  destruct (c =? ch ">")%N eqn:Hc; [|discriminate].
  apply N.eqb_eq in Hc as ->.
  pose proof (while_after is_space s2) as Hs2.
  pose proof (while_all is_space s2) as Hws.
  unfold lstrip.
  destruct (after is_space s2) as [|d [|e s3]] eqn:Hl; try discriminate.
  destruct ((d =? ch "+") && (e =? ch "+"))%N eqn:Hde; [|discriminate].
  apply andb_prop in Hde as [->%N.eqb_eq ->%N.eqb_eq].
  intros [= <- <-].
  exists (while_ is_space s2). repeat split; try assumption; [|discriminate].
  now rewrite Hs2, Hs1.
Qed.

(** The matcher on [<@[A-Z0-9]+>\s*\+\+] finds what [grant_head] finds. *)
Lemma exec_mention_plus (g : bool) (s : str) (cs : caps) k :
  exec (mention_plus g) s cs k =
  match grant_head s with
  | Some (name, rest) => k rest (if g then (1%nat, name) :: cs else cs)
  | None => None
  end.
Proof.
  unfold grant_head.
  destruct s as [|a [|b s1]].
  - now destruct g.
  - destruct g; simpl; now destruct (a =? ch "<")%N.
  - assert (Hgt : upper_or_digit (ch ">") = false) by reflexivity.
    assert (Hplus : is_space (ch "+") = false) by reflexivity.
    set (tail := fun (cs' : caps) (s' : str) =>
      match s' with
      | c :: s2 =>
          if (c =? ch ">")%N then
            match lstrip s2 with
            | d :: e :: s3 =>
                if ((d =? ch "+") && (e =? ch "+"))%N then k s3 cs' else None
            | _ => None
            end
          else None
      | [] => None
      end).
    assert (Htail : forall cs' s',
      exec (cat_all [Lit (ch ">"); Star true is_space; Lit (ch "+"); Lit (ch "+")])
        s' cs' k = tail cs' s').
    { intros cs' s'. unfold tail. destruct s' as [|c s2]; [reflexivity|].
      change (exec (cat_all [Lit (ch ">"); Star true is_space; Lit (ch "+"); Lit (ch "+")])
                (c :: s2) cs' k)
        with (if (c =? ch ">")%N
              then exec (Star true is_space) s2 cs'
                     (fun s' cs'' => exec (cat_all [Lit (ch "+"); Lit (ch "+")]) s' cs'' k)
              else None).
      destruct (c =? ch ">")%N; [|reflexivity].
      rewrite exec_star_greedy_commit.
      - unfold lstrip. destruct (after is_space s2) as [|d [|e s3]]; simpl.
        + reflexivity.
        + now destruct (d =? ch "+")%N.
        + destruct (d =? ch "+")%N; simpl; [|reflexivity]. reflexivity.
      - intros x t Hx. simpl. destruct (x =? ch "+")%N eqn:E; [|reflexivity].
        apply N.eqb_eq in E as ->. congruence. }
    destruct ((a =? ch "<") && (b =? ch "@"))%N eqn:Hab.
    2:{ destruct g; simpl; destruct (a =? ch "<")%N; try reflexivity;
        simpl in Hab; now rewrite Hab. }
    apply andb_prop in Hab as [Ha Hb].
    destruct s1 as [|x s1'].
    { destruct g; simpl; now rewrite Ha, Hb. }
    simpl while_. simpl after.
    destruct (upper_or_digit x) eqn:Hx.
    2:{ destruct g; simpl; rewrite Ha, Hb, Hx; reflexivity. }
    destruct g.
    + change (exec (mention_plus true) (a :: b :: x :: s1') cs k)
        with (if (a =? ch "<")%N then if (b =? ch "@")%N then
               if upper_or_digit x then
                 exec (Star true upper_or_digit) s1' cs
                   (fun s' cs' =>
                      exec (cat_all [Lit (ch ">"); Star true is_space; Lit (ch "+"); Lit (ch "+")])
                        s' ((1%nat, consumed (x :: s1') s') :: cs') k)
               else None else None else None).
      rewrite Ha, Hb, Hx.
      erewrite (exec_star_greedy_commit _ _ _ s1').
      * rewrite Htail. unfold tail.
        rewrite consumed_cons by apply after_length.
        rewrite consumed_while.
        destruct (after upper_or_digit s1') as [|c s2]; [reflexivity|].
        destruct (c =? ch ">")%N; [|reflexivity].
        destruct (lstrip s2) as [|d [|e s3]]; try reflexivity.
        now destruct ((d =? ch "+") && (e =? ch "+"))%N.
      * intros y t Hy. rewrite Htail. unfold tail.
        destruct (y =? ch ">")%N eqn:E; [|reflexivity].
        apply N.eqb_eq in E as ->. congruence.
    + change (exec (mention_plus false) (a :: b :: x :: s1') cs k)
        with (if (a =? ch "<")%N then if (b =? ch "@")%N then
               if upper_or_digit x then
                 exec (Star true upper_or_digit) s1' cs
                   (fun s' cs' =>
                      exec (cat_all [Lit (ch ">"); Star true is_space; Lit (ch "+"); Lit (ch "+")])
                        s' cs' k)
               else None else None else None).
      rewrite Ha, Hb, Hx.
      erewrite (exec_star_greedy_commit _ _ _ s1').
      * rewrite Htail. unfold tail.
        destruct (after upper_or_digit s1') as [|c s2]; [reflexivity|].
        destruct (c =? ch ">")%N; [|reflexivity].
        destruct (lstrip s2) as [|d [|e s3]]; try reflexivity.
        now destruct ((d =? ch "+") && (e =? ch "+"))%N.
      * intros y t Hy. rewrite Htail. unfold tail.
        destruct (y =? ch ">")%N eqn:E; [|reflexivity].
        apply N.eqb_eq in E as ->. congruence.
Qed.

(** ** The note and the lookahead *)

Lemma is_grant_head (c : N) (s : str) :
  c <> ch "<" -> grant_head (c :: s) = None.
Proof.
  intros Hc. unfold grant_head. destruct s as [|b s1]; [reflexivity|].
  apply N.eqb_neq in Hc. now rewrite Hc.
Qed.

Lemma is_grant_space (c : N) (s : str) :
  is_space c = true -> is_grant (c :: s) = false.
Proof.
  intros Hc. unfold is_grant. rewrite is_grant_head; [reflexivity|].
  intros ->. discriminate.
Qed.

(** [(?=<@[A-Z0-9]+>\s*\+\+|$)] holds at a grant, at the end of the text
    and before a line feed that ends the text. *)
Lemma exec_lookahead (s : str) (cs : caps) k :
  exec (Ahead (Alt (mention_plus false) Eos)) s cs k =
  if is_grant s
     || match s with [] => true | [x] => (x =? LF)%N | _ => false end
  then k s cs else None.
Proof.
  change (exec (Ahead (Alt (mention_plus false) Eos)) s cs k)
    with (match
            match exec (mention_plus false) s cs (fun s' cs' => Some (cs', s')) with
            | Some res => Some res
            | None => exec Eos s cs (fun s' cs' => Some (cs', s'))
            end
          with
          | Some (cs', _) => k s cs'
          | None => None
          end).
  rewrite exec_mention_plus. unfold is_grant.
  destruct (grant_head s) as [[name rest]|]; [reflexivity|].
  destruct s as [|x [|y s']]; simpl; try reflexivity.
  now destruct (x =? LF)%N.
Qed.

Lemma exec_star_lazy_unfold p (s : str) (cs : caps) k :
  exec (Star false p) s cs k =
  match k s cs with
  | Some res => Some res
  | None =>
      match s with
      | x :: s' => if p x then exec (Star false p) s' cs k else None
      | [] => None
      end
  end.
Proof. destruct s; reflexivity. Qed.

(** [(.*?)] before the lookahead stops where [note_upto] stops; [u] is
    what the group has taken already. *)
Lemma exec_note (u t : str) (cs : caps) :
  exec (Star false dot) t cs
    (fun s' cs' =>
       exec (Ahead (Alt (mention_plus false) Eos)) s'
         ((2%nat, consumed (u ++ t) s') :: cs')
         (fun s'' cs'' => Some (cs'', s'')))
  = match note_upto t with
    | Some note => Some ((2%nat, u ++ note) :: cs, drop (length note) t)
    | None => None
    end.
Proof.
  revert u. induction t as [|c t IH]; intros u.
  - rewrite exec_star_lazy_unfold, exec_lookahead. simpl.
    now rewrite consumed_app, app_nil_r.
  - rewrite exec_star_lazy_unfold, exec_lookahead.
    cbn [note_upto].
    destruct (is_grant (c :: t)) eqn:Hg.
    { cbn [orb]. now rewrite consumed_app, app_nil_r. }
    cbn [orb].
    assert (Hdot : dot c = negb (c =? LF)%N) by reflexivity.
    destruct (c =? LF)%N eqn:Hc.
    { destruct t as [|y t]; [|now rewrite Hdot].
      now rewrite consumed_app, app_nil_r. }
    rewrite Hdot. cbn [negb].
    assert (Hend : match t with [] | _ => false end = false) by now destruct t.
    rewrite Hend.
    replace (u ++ c :: t) with ((u ++ [c]) ++ t) by now rewrite <- app_assoc.
    rewrite IH. destruct (note_upto t) as [note|]; [|reflexivity].
    now rewrite <- app_assoc.
Qed.

(** Whitespace in front of a note that cannot be matched does not help. *)
Lemma note_upto_lstrip (t : str) :
  note_upto (lstrip t) = None -> note_upto t = None.
Proof.
  unfold lstrip. induction t as [|c t IH]; [discriminate|].
  cbn [after]. destruct (is_space c) eqn:Hc; [|easy].
  intros H. specialize (IH H). cbn [note_upto].
  rewrite is_grant_space by assumption. rewrite IH.
  destruct (c =? LF)%N; [|reflexivity].
  destruct t; [discriminate | reflexivity].
Qed.

(** The whole pattern at the head of a text. *)
Lemma match_here_pattern (s : str) :
  match_here MENTION_PLUS_PATTERN s =
  match grant_head s with
  | Some (name, rest) =>
      match note_upto (lstrip rest) with
      | Some note =>
          Some ([(2%nat, note); (1%nat, name)],
                drop (length note) (lstrip rest))
      | None => None
      end
  | None => None
  end.
Proof.
  unfold match_here, MENTION_PLUS_PATTERN.
  change (exec (cat_all [mention_plus true; Star true is_space;
                         Group 2 (Star false dot);
                         Ahead (Alt (mention_plus false) Eos)]) s []
            (fun s' cs => Some (cs, s')))
    with (exec (mention_plus true) s []
            (fun s1 cs1 =>
               exec (Star true is_space) s1 cs1
                 (fun s2 cs2 =>
                    exec (Star false dot) s2 cs2
                      (fun s3 cs3 =>
                         exec (Ahead (Alt (mention_plus false) Eos)) s3
                           ((2%nat, consumed s2 s3) :: cs3)
                           (fun s4 cs4 => Some (cs4, s4)))))).
  rewrite exec_mention_plus.
  destruct (grant_head s) as [[name rest]|]; [|reflexivity].
  destruct (note_upto (lstrip rest)) as [note|] eqn:Hn.
  - apply exec_star_greedy_first.
    change (after is_space rest) with (lstrip rest).
    rewrite (exec_note [] (lstrip rest)). now rewrite Hn.
  - apply exec_star_greedy_none. intros u t -> Hu.
    rewrite (exec_note [] t).
    unfold lstrip in Hn. rewrite after_run in Hn by assumption.
    now rewrite (note_upto_lstrip t Hn).
Qed.

(** ** From the matches of the pattern to the grants of the text *)

Lemma quiet_app (u1 u2 t : str) :
  quiet u1 (u2 ++ t) -> quiet u2 t -> quiet (u1 ++ u2) t.
Proof.
  induction u1 as [|c u1 IH]; simpl; [easy|].
  intros [Hc Hq] H2. rewrite <- app_assoc. split; [exact Hc | now apply IH].
Qed.

Lemma forallb_other p (u : str) :
  p (ch "<") = false -> forallb p u = true ->
  forallb (fun x => negb (x =? ch "<")%N) u = true.
Proof.
  intros Hp. induction u as [|c u IH]; simpl; [easy|].
  intros [Hc Hu]%andb_prop. rewrite (IH Hu), andb_true_r.
  destruct (c =? ch "<")%N eqn:E; [|reflexivity].
  apply N.eqb_eq in E as ->. congruence.
Qed.

Lemma quiet_other p (u t : str) :
  p (ch "<") = false -> forallb p u = true -> quiet u t.
Proof.
  intros Hp. induction u as [|c u IH]; simpl; [easy|].
  intros [Hc Hu]%andb_prop. split; [|now apply IH].
  apply is_grant_head. intros ->. congruence.
Qed.

Lemma note_upto_split (t note : str) :
  note_upto t = Some note ->
  t = note ++ drop (length note) t /\ quiet note (drop (length note) t).
Proof.
  revert note. induction t as [|c t IH]; intros note.
  - intros [= <-]. now split.
  - cbn [note_upto]. destruct (is_grant (c :: t)) eqn:Hg.
    { intros [= <-]. now split. }
    destruct (c =? LF)%N.
    { destruct t; [|discriminate]. intros [= <-]. now split. }
    destruct (note_upto t) as [note'|]; [|discriminate].
    intros [= <-]. destruct (IH note' eq_refl) as [Ht Hq].
    cbn [length drop app]. split; [now rewrite <- Ht|].
    simpl. rewrite <- Ht. split; [|exact Hq].
    unfold is_grant in Hg. now destruct (grant_head (c :: t)).
Qed.

Lemma grants_matched_quiet (u t : str) :
  quiet u t -> grants_matched (u ++ t) = grants_matched t.
Proof.
  induction u as [|c u IH]; simpl; [easy|].
  intros [Hc Hq]. simpl in Hc. rewrite Hc. now apply IH.
Qed.

Lemma scan_skip (u t : str) :
  scan MENTION_PLUS_PATTERN (length u) (u ++ t) = scan MENTION_PLUS_PATTERN 0 t.
Proof. induction u as [|c u IH]; simpl; [reflexivity | exact IH]. Qed.

(** The text of a match: what lies between the start of a grant and the
    end of its note is quiet but for its first character. *)
Lemma grant_span (c : N) (s name rest note : str) :
  grant_head (c :: s) = Some (name, rest) ->
  note_upto (lstrip rest) = Some note ->
  exists u,
    s = u ++ drop (length note) (lstrip rest)
    /\ quiet u (drop (length note) (lstrip rest)).
Proof.
  intros Hg Hn.
  destruct (grant_head_shape _ _ _ Hg) as (ws & Hs & _ & Hname & Hws).
  destruct (note_upto_split _ _ Hn) as [Hl Hq].
  injection Hs as -> ->.
  set (rest' := drop (length note) (lstrip rest)) in *.
  pose proof (while_after is_space rest) as Hrest.
  change (after is_space rest) with (lstrip rest) in Hrest.
  exists ((ch "@" :: name ++ ch ">" :: ws ++ ch "+" :: ch "+" :: while_ is_space rest)
          ++ note).
  split.
  - rewrite <- Hrest at 1. rewrite Hl at 1.
    simpl. repeat (rewrite <- ?app_assoc; simpl). reflexivity.
  - apply quiet_app; [|exact Hq].
    apply (quiet_other (fun x => negb (x =? ch "<")%N)); [reflexivity|].
    simpl. rewrite forallb_app. simpl. rewrite forallb_app. simpl.
    rewrite !andb_true_iff. repeat split.
    + now apply (forallb_other upper_or_digit).
    + now apply (forallb_other is_space).
    + apply (forallb_other is_space); [reflexivity | apply while_all].
Qed.

(** [findall] reports the grants whose note can be matched, position by
    position. *)
Lemma findall_pattern (s : str) :
  findall MENTION_PLUS_PATTERN s = grants_matched s.
Proof.
  unfold findall.
  remember (length s) as n eqn:Hn.
  revert s Hn. induction n as [n IH] using lt_wf_ind. intros s ->.
  destruct s as [|c s]; [reflexivity|].
  cbn [scan grants_matched]. rewrite match_here_pattern.
  destruct (grant_head (c :: s)) as [[name rest]|] eqn:Hg.
  2:{ apply (IH (length s)); simpl; [lia | reflexivity]. }
  destruct (note_upto (lstrip rest)) as [note|] eqn:Hnote.
  2:{ apply (IH (length s)); simpl; [lia | reflexivity]. }
  destruct (grant_span _ _ _ _ _ Hg Hnote) as (u & Hs & Hq).
  cbn [group Nat.eqb]. f_equal.
  set (rest' := drop (length note) (lstrip rest)) in *.
  rewrite Hs at 2 3. rewrite grants_matched_quiet by exact Hq.
  replace (length (c :: s) - length rest' - 1)%nat with (length u).
  2:{ rewrite Hs. simpl. rewrite length_app. lia. }
  rewrite scan_skip.
  apply (IH (length rest')); [|reflexivity].
  rewrite Hs. simpl. rewrite length_app. lia.
Qed.

(** ** The extractor on texts without line feeds *)






Lemma grants_length (s : str) : length (grants s) = count_grants s.
Proof.
  induction s as [|c s IH]; [reflexivity|].
  cbn [grants count_grants]. unfold is_grant.
  destruct (grant_head (c :: s)) as [[name rest]|]; simpl; now rewrite IH.
Qed.

Lemma grants_matched_none (s : str) :
  count_grants s = 0%nat -> grants_matched s = [].
Proof.
  induction s as [|c s IH]; [reflexivity|].
  cbn [grants_matched count_grants]. unfold is_grant.
  destruct (grant_head (c :: s)) as [[name rest]|]; [discriminate|].
  exact IH.
Qed.




(** ** Which mentions are recognised *)

Lemma grants_matched_sound (s name note : str) :
  In (name, note) (grants_matched s) ->
  exists pre rest,
    s = pre ++ rest
    /\ match grant_head rest with
       | Some (name', rest') =>
           name' = name /\ note_upto (lstrip rest') = Some note
       | None => False
       end.
Proof.
  induction s as [|c s IH]; [easy|].
  cbn [grants_matched].
  assert (Hlater : In (name, note) (grants_matched s) ->
    exists pre rest, c :: s = pre ++ rest /\
      match grant_head rest with
      | Some (name', rest') =>
          name' = name /\ note_upto (lstrip rest') = Some note
      | None => False
      end).
  { intros H. destruct (IH H) as (pre & rest & -> & Hr).
    now exists (c :: pre), rest. }
  destruct (grant_head (c :: s)) as [[name' rest']|] eqn:Hg; [|exact Hlater].
  destruct (note_upto (lstrip rest')) as [note'|] eqn:Hn; [|exact Hlater].
  intros [[= <- <-]|H]; [|now apply Hlater].
  exists [], (c :: s). rewrite Hg. now split.
Qed.

(** A mention-like token whose body has a character that is neither an
    upper-case letter nor a digit, or has no character at all. *)
Lemma grant_head_malformed (body post : str) :
  forallb (fun c => negb (c =? ch ">")%N) body = true ->
  body = [] \/ forallb upper_or_digit body = false ->
  grant_head (ch "<" :: ch "@" :: body ++ ch ">" :: post) = None.
Proof.
  intros Hgt Hbad. unfold grant_head.
  change ((ch "<" =? ch "<")%N && (ch "@" =? ch "@")%N) with true. cbv iota.
  destruct Hbad as [-> | Hbad]; [reflexivity|].
  assert (H : exists c t, after upper_or_digit (body ++ ch ">" :: post) = c :: t
                          /\ (c =? ch ">")%N = false).
  { clear -Hgt Hbad. induction body as [|x body IH]; [discriminate|].
    cbn [forallb] in Hgt, Hbad. apply andb_prop in Hgt as [Hx Hgt].
    cbn [app after]. destruct (upper_or_digit x) eqn:Ex.
    - now apply IH.
    - exists x, (body ++ ch ">" :: post). split; [reflexivity|].
      now apply negb_true_iff in Hx. }
  destruct H as (c & t & -> & Hc).
  destruct (while_ upper_or_digit (body ++ ch ">" :: post)); [reflexivity|].
  now rewrite Hc.
Qed.

(** C10: a mention is recognised only as [<@], one or more upper-case
    letters or digits, and [>]. Every match that [findall] reports comes
    from such a mention followed by optional whitespace and the marker;
    no match starts at a mention-like token whose body is empty or holds
    any other character, whatever follows it; [<@u123> ++ hi] gives no
    match. *)
Theorem mention_canonical :
  (forall (text name note : str),
     In (name, note) (findall MENTION_PLUS_PATTERN text) ->
     name <> [] /\ forallb upper_or_digit name = true
     /\ exists pre ws post,
          forallb is_space ws = true
          /\ text = pre ++ ch "<" :: ch "@" :: name ++ ch ">" :: ws
                        ++ ch "+" :: ch "+" :: post)
  /\ (forall (body post : str),
        forallb (fun c => negb (c =? ch ">")%N) body = true ->
        body = [] \/ forallb upper_or_digit body = false ->
        match_here MENTION_PLUS_PATTERN (ch "<" :: ch "@" :: body ++ ch ">" :: post)
        = None)
  /\ findall MENTION_PLUS_PATTERN (py "<@u123> ++ hi") = [].
Proof.
  split; [|split].
  - intros text name note Hin. rewrite findall_pattern in Hin.
    destruct (grants_matched_sound _ _ _ Hin) as (pre & rest & -> & Hr).
    destruct (grant_head rest) as [[name' rest']|] eqn:Hg; [|easy].
    destruct Hr as [-> _].
    destruct (grant_head_shape _ _ _ Hg) as (ws & -> & Hne & Hname & Hws).
    repeat split; try assumption.
    now exists pre, ws, rest'.
  - intros body post Hgt Hbad.
    rewrite match_here_pattern.
    now rewrite (grant_head_malformed body post Hgt Hbad).
  - vm_compute. reflexivity.
Qed.

Lemma mention_canonical_witness :
  In (py "U2", py "nice!") (findall MENTION_PLUS_PATTERN two_grants)
  /\ py "U2" <> []
  /\ forallb upper_or_digit (py "U2") = true
  /\ match_here MENTION_PLUS_PATTERN
       (ch "<" :: ch "@" :: py "u123" ++ ch ">" :: py " ++ hi") = None.
Proof.
  assert (Hin : In (py "U2", py "nice!") (findall MENTION_PLUS_PATTERN two_grants)).
  { vm_compute. right. left. reflexivity. }
  split; [exact Hin|].
  destruct (proj1 mention_canonical _ _ _ Hin) as (Hne & Hall & _).
  split; [exact Hne|]. split; [exact Hall|].
  apply (proj1 (proj2 mention_canonical) (py "u123") (py " ++ hi")).
  - reflexivity.
  - right. reflexivity.
Defined.

(** ** The store *)

Lemma select_count_upsert (u v : str) (d : database) :
  select_count v (upsert_kudos u d) =
  if bool_decide (u = v) then select_count v d + 1 else select_count v d.
Proof.
  unfold select_count, upsert_kudos. simpl.
  case_bool_decide as Huv.
  - subst v. destruct (kudos d !! u) as [c|] eqn:E;
      rewrite lookup_insert_eq; reflexivity.
  - destruct (kudos d !! u) as [c|] eqn:E;
      rewrite lookup_insert_ne by exact Huv; reflexivity.
Qed.

Lemma select_count_insert_log now (r g : str) m (v : str) (d : database) :
  select_count v (insert_log now r g m d) = select_count v d.
Proof. reflexivity. Qed.

Lemma log_rows_upsert (u v : str) (d : database) :
  log_rows_for v (upsert_kudos u d) = log_rows_for v d.
Proof. reflexivity. Qed.

Lemma log_rows_insert_log now (r g : str) m (v : str) (d : database) :
  length (log_rows_for v (insert_log now r g m d)) =
  (length (log_rows_for v d) + if bool_decide (r = v) then 1 else 0)%nat.
Proof.
  unfold log_rows_for, insert_log. simpl.
  rewrite List.filter_app, length_app. simpl.
  now destruct (bool_decide (r = v)).
Qed.

(** One committed increment with a giver keeps the log and the counts
    together. *)
Lemma consistent_increment now (u g : str) m (d : database) :
  g <> [] -> consistent d ->
  consistent (increment_statements now u (Some g) m d).
Proof.
  intros Hg Hd v. unfold increment_statements.
  destruct g as [|g0 g']; [easy|].
  rewrite select_count_insert_log, select_count_upsert.
  rewrite log_rows_insert_log, log_rows_upsert, (Hd v).
  case_bool_decide; lia.
Qed.

Lemma consistent_empty : consistent empty_db.
Proof. intros u. reflexivity. Qed.

(** What one call of [increment_kudos] does to the database. *)
Lemma increment_kudos_db (u : str) g m (w : world) :
  db (increment_kudos u g m w).2 =
  if connections_work 1 w
  then increment_statements (clock w) u g m (db w)
  else db w.
Proof.
  unfold increment_kudos, transaction, connections_work.
  destruct (sqlite_faults w) as [|[|] fs]; reflexivity.
Qed.

Lemma increment_kudos_result (u : str) g m (w : world) :
  (increment_kudos u g m w).1 =
  if connections_work 1 w then Ok VNone else Raised SqliteError.
Proof.
  unfold increment_kudos, transaction, connections_work.
  destruct (sqlite_faults w) as [|[|] fs]; reflexivity.
Qed.

Lemma increment_kudos_faults (u : str) g m (w : world) :
  sqlite_faults (increment_kudos u g m w).2 = tl (sqlite_faults w).
Proof.
  unfold increment_kudos, transaction.
  destruct (sqlite_faults w) as [|[|] fs] eqn:E; simpl; now rewrite ?E.
Qed.

(** C2, as stated, fails: after the one call [increment_kudos("U1")], whose
    [giver_id] is [None], the count of U1 is 1 and the log has no row. *)
Lemma ledger_inconsistent_without_giver :
  let d := db (run_increments [(py "U1", None, None)] world0) in
  select_count (py "U1") d = 1
  /\ log_rows_for (py "U1") d = []
  /\ ~ consistent d.
Proof.
  assert (H1 : select_count (py "U1")
                 (db (run_increments [(py "U1", None, None)] world0)) = 1)
    by (vm_compute; reflexivity).
  assert (H2 : log_rows_for (py "U1")
                 (db (run_increments [(py "U1", None, None)] world0)) = [])
    by (vm_compute; reflexivity).
  cbv zeta. split; [exact H1|]. split; [exact H2|].
  intros Hc. specialize (Hc (py "U1")). rewrite H1, H2 in Hc. discriminate.
Qed.

(** C2, amended: after every finite sequence of calls of [increment_kudos]
    that all have a non-empty [giver_id] (as every call of the message
    handler has), on a store where the counts and the log agree (as they
    do in a new database), the count of every user is the number of log
    rows that name the user as receiver; a call that commits adds 1 to the
    count and one row to the log, and a call whose connection fails
    changes neither. *)
Theorem ledger_consistent
    (calls : list (str * option str * option str)) (w : world) :
  consistent (db w) ->
  Forall (fun c => truthy c.1.2 = true) calls ->
  consistent (db (run_increments calls w))
  /\ consistent empty_db
  /\ (forall (u g : str) m, g <> [] ->
        let w' := (increment_kudos u (Some g) m w).2 in
        if connections_work 1 w then
          select_count u (db w') = select_count u (db w) + 1
          /\ kudos_log (db w')
             = kudos_log (db w) ++ [LogRow (log_seq (db w) + 1) u g m (clock w)]
        else db w' = db w).
Proof.
  intros Hw Hcalls. split; [|split].
  - revert w Hw. induction Hcalls as [|[[u g] m] calls Hg _ IH]; intros w Hw.
    + exact Hw.
    + cbn [run_increments fold_left]. apply IH.
      rewrite increment_kudos_db.
      destruct (connections_work 1 w); [|exact Hw].
      simpl in Hg. destruct g as [[|g0 g']|]; try discriminate.
      now apply consistent_increment.
  - exact consistent_empty.
  - intros u g m Hg. cbv zeta. rewrite increment_kudos_db.
    destruct (connections_work 1 w); [|reflexivity].
    destruct g as [|g0 g']; [easy|].
    unfold increment_statements.
    rewrite select_count_insert_log, select_count_upsert.
    rewrite bool_decide_eq_true_2 by reflexivity.
    split; reflexivity.
Qed.

Lemma ledger_consistent_witness :
  consistent
    (db (run_increments
           [(py "U1", Some (py "U9"), Some (py "great job"));
            (py "U2", Some (py "U9"), None);
            (py "U1", Some (py "U2"), None)]
           world0)).
Proof.
  apply (ledger_consistent _ world0).
  - intros u. reflexivity.
  - repeat constructor.
Defined.

Lemma select_count_increment now (u : str) g m (d : database) :
  select_count u (increment_statements now u g m d) = select_count u d + 1.
Proof.
  unfold increment_statements.
  destruct g as [[|g0 g']|]; rewrite ?select_count_insert_log;
    rewrite select_count_upsert; now rewrite bool_decide_eq_true_2.
Qed.

Lemma kudos_increment now (u : str) g m (d : database) :
  kudos (increment_statements now u g m d) !! u = Some (select_count u d + 1).
Proof.
  unfold increment_statements, select_count.
  destruct g as [[|g0 g']|]; simpl;
    destruct (kudos d !! u); now rewrite lookup_insert_eq.
Qed.

(** C9: a call of [increment_kudos] whose [giver_id] is [None] or the empty
    string, on a working connection, returns normally, inserts the row of
    the receiver with count 1 or adds 1 to its count, and leaves the log as
    it was; so on a store where the counts and the log agreed the count of
    the receiver now exceeds the number of its log rows. *)
Theorem increment_without_giver (u : str) (g m : option str) (w : world) :
  truthy g = false ->
  connections_work 1 w = true ->
  let w' := (increment_kudos u g m w).2 in
  (increment_kudos u g m w).1 = Ok VNone
  /\ kudos (db w') !! u = Some (select_count u (db w) + 1)
  /\ (kudos (db w) !! u = None -> kudos (db w') !! u = Some 1)
  /\ kudos_log (db w') = kudos_log (db w)
  /\ (consistent (db w) ->
      Z.of_nat (length (log_rows_for u (db w'))) < select_count u (db w')).
Proof.
  intros Hg Hup. cbv zeta.
  rewrite increment_kudos_result, increment_kudos_db, Hup.
  split; [reflexivity|]. split; [apply kudos_increment|].
  split; [|split].
  - intros Hnone. rewrite kudos_increment. unfold select_count.
    now rewrite Hnone.
  - unfold increment_statements. now destruct g as [[|g0 g']|].
  - intros Hc. rewrite select_count_increment.
    assert (Hlog : log_rows_for u (increment_statements (clock w) u g m (db w))
                   = log_rows_for u (db w)).
    { unfold increment_statements. now destruct g as [[|g0 g']|]. }
    rewrite Hlog, (Hc u). lia.
Qed.

Lemma increment_without_giver_witness :
  let w' := (increment_kudos (py "U1") (Some []) None world0).2 in
  kudos (db w') !! py "U1" = Some 1
  /\ kudos_log (db w') = [].
Proof.
  pose proof (increment_without_giver (py "U1") (Some []) None world0
                eq_refl eq_refl) as (_ & _ & H1 & Hlog & _).
  cbv zeta. split; [now apply H1 | exact Hlog].
Defined.

(** C3, as stated, fails: a call of [increment_kudos] evaluates to [None],
    not to the count that it has just written. *)
Lemma increment_returns_none :
  let r := increment_kudos (py "U1") (Some (py "U9")) None world0 in
  r.1 = Ok VNone
  /\ select_count (py "U1") (db r.2) = 1
  /\ r.1 <> Ok (VInt (select_count (py "U1") (db r.2))).
Proof.
  cbv zeta. split; [reflexivity|]. split; [vm_compute; reflexivity|].
  rewrite increment_kudos_result. simpl. discriminate.
Qed.

(** C3, amended: [increment_kudos] returns no value, for every receiver,
    giver and note; the count after its update, which is the count before
    it plus 1, is what [get_kudos] returns for the receiver when it is
    called next, as the message handler does (both on working
    connections). *)
Theorem count_after_increment (u : str) (g m : option str) (w : world) :
  connections_work 2 w = true ->
  (increment_kudos u g m w).1 = Ok VNone
  /\ select_count u (db (increment_kudos u g m w).2) = select_count u (db w) + 1
  /\ ((_ <- increment_kudos u g m ;; get_kudos u) w).1
     = Ok (select_count u (db w) + 1).
Proof.
  intros Hup.
  assert (H1 : connections_work 1 w = true
               /\ connections_work 1 (increment_kudos u g m w).2 = true).
  { unfold connections_work in *. rewrite increment_kudos_faults.
    destruct (sqlite_faults w) as [|[|] [|[|] fs]]; simpl in *;
      split; congruence. }
  destruct H1 as [Hup1 Hup2].
  pose proof (increment_kudos_result u g m w) as Hr.
  pose proof (increment_kudos_db u g m w) as Hd.
  rewrite Hup1 in Hr, Hd.
  split; [exact Hr|]. split.
  - rewrite Hd. apply select_count_increment.
  - unfold bind. destruct (increment_kudos u g m w) as [r w'] eqn:E.
    simpl in Hr, Hd, Hup2. subst r.
    unfold get_kudos, transaction. unfold connections_work in Hup2.
    destruct (sqlite_faults w') as [|[|] fs]; simpl in *; try discriminate;
      rewrite Hd; now rewrite select_count_increment.
Qed.

Lemma count_after_increment_witness :
  ((_ <- increment_kudos (py "U1") (Some (py "U9")) None ;; get_kudos (py "U1"))
     world0).1 = Ok (select_count (py "U1") (db world0) + 1).
Proof.
  apply (count_after_increment (py "U1") (Some (py "U9")) None world0).
  reflexivity.
Defined.

(** ** The leaderboard *)

#[local] Instance count_desc_total : Total count_desc.
Proof. intros r1 r2. unfold count_desc. lia. Qed.

#[local] Instance count_desc_trans : Transitive count_desc.
Proof. intros r1 r2 r3. unfold count_desc. lia. Qed.

#[local] Instance row_order_total d : Total (row_order d).
Proof. intros r1 r2. unfold row_order. lia. Qed.

#[local] Instance row_order_trans d : Transitive (row_order d).
Proof. intros r1 r2 r3. unfold row_order. lia. Qed.

Lemma row_order_count_desc (d : database) (r1 r2 : str * Z) :
  row_order d r1 r2 -> count_desc r1 r2.
Proof. unfold row_order, count_desc. lia. Qed.

Lemma StronglySorted_weaken {A} (R1 R2 : relation A) (l : list A) :
  (forall x y, R1 x y -> R2 x y) ->
  StronglySorted R1 l -> StronglySorted R2 l.
Proof.
  intros HR. induction 1 as [|x l Hs IH Hx]; constructor; [exact IH|].
  eapply List.Forall_impl; [|exact Hx]. apply HR.
Qed.


Lemma select_leaderboard_length (limit : Z) (d : database) :
  0 <= limit -> Z.of_nat (length (select_leaderboard limit d)) <= limit.
Proof.
  intros H. unfold select_leaderboard.
  destruct (limit <? 0) eqn:E; [lia|].
  rewrite length_take. lia.
Qed.

Lemma select_leaderboard_empty (limit : Z) (d : database) :
  kudos d = ∅ -> select_leaderboard limit d = [].
Proof.
  intros H. unfold select_leaderboard. rewrite H, map_to_list_empty.
  change (merge_sort (row_order d) []) with (@nil (list N * Z)).
  destruct (limit <? 0); [reflexivity | apply take_nil].
Qed.



(** ** The composer *)

Lemma composer_frame_refl (w : world) : composer_frame w w.
Proof. now repeat split. Qed.

Lemma composer_frame_trans (w1 w2 w3 : world) :
  composer_frame w1 w2 -> composer_frame w2 w3 -> composer_frame w1 w3.
Proof.
  unfold composer_frame. intros (?&?&?&?) (?&?&?&?).
  repeat split; congruence.
Qed.

Lemma random_choice_ok {A} (l : list A) (w : world) :
  l <> [] ->
  exists a w', random_choice l w = (Ok a, w') /\ In a l /\ composer_frame w w'.
Proof.
  intros Hl. unfold random_choice. destruct l as [|x l']; [easy|].
  destruct (randoms w) as [|r rs].
  - exists x, w. split; [reflexivity|]. split; [now left|].
    apply composer_frame_refl.
  - eexists _, _. split; [reflexivity|]. split.
    + apply nth_In. apply Nat.mod_upper_bound. discriminate.
    + now repeat split.
Qed.

Lemma get_fallback_message_ok (w : world) :
  exists s w',
    get_fallback_message w = (Ok s, w')
    /\ In s fallback_messages /\ composer_frame w w'.
Proof. apply random_choice_ok. discriminate. Qed.

Lemma generate_content_frame (prompt : str) (w : world) :
  composer_frame w (generate_content prompt w).2.
Proof.
  unfold generate_content.
  destruct (api_answers w) as [|[|r] rest]; now repeat split.
Qed.

Lemma generate_content_result (prompt : str) (w : world) :
  (generate_content prompt w).1 =
  match api_answers w with
  | ApiReturns r :: _ => Ok r
  | _ => Raised GenaiError
  end.
Proof.
  unfold generate_content. now destruct (api_answers w) as [|[|r] rest].
Qed.

(** What [generate_kudos_message] returns, by the cases of its body. *)
Lemma generate_kudos_message_cases (r g k : option str) (c : option Z)
    (w : world) :
  exists s w',
    generate_kudos_message r g k c w = (Ok s, w')
    /\ composer_frame w w'
    /\ (composer_fails w = true -> In s fallback_messages).
Proof.
  unfold generate_kudos_message, try_except, generate_kudos_message_body,
    composer_fails.
  destruct (truthy (GEMINI_API_KEY w)); cbn [negb orb].
  2:{ destruct (get_fallback_message_ok w) as (s & w' & -> & Hin & Hf).
      now exists s, w'. }
  set (prompt := prompt_for _). unfold bind.
  pose proof (generate_content_frame prompt w) as Hf.
  pose proof (generate_content_result prompt w) as Hr.
  destruct (generate_content prompt w) as [res w1]. simpl in Hf, Hr. subst res.
  assert (Hfall : exists s w',
            get_fallback_message w1 = (Ok s, w') /\ composer_frame w w'
            /\ In s fallback_messages).
  { destruct (get_fallback_message_ok w1) as (s & w' & E & Hin & Hf').
    exists s, w'. split; [exact E|]. split; [|exact Hin].
    now apply (composer_frame_trans w w1 w'). }
  destruct Hfall as (s & w' & E & Hf' & Hin).
  destruct (api_answers w) as [|[|[[[[|t0 t]|]]|]] rest].
  - exists s, w'. now rewrite E.
  - exists s, w'. now rewrite E.
  - exists s, w'. unfold ret. now rewrite E.
  - exists (strip (t0 :: t)), w1. unfold ret. repeat split; try apply Hf.
    discriminate.
  - exists s, w'. now rewrite E.
  - exists s, w'. now rewrite E.
Qed.

(** C6, as stated, fails: two runs of the composer with the same
    arguments, both failing for want of an API key, return different
    fallback strings when the random number generator draws differently. *)
Lemma fallback_not_deterministic :
  let run r :=
    (generate_kudos_message None None (Some (py "great job")) (Some 3)
       (world_draw r)).1 in
  composer_fails (world_draw 0) = true
  /\ composer_fails (world_draw 1) = true
  /\ run 0%nat = Ok (py "Keep up the amazing work! " ++ [287; 376; 338; 376]%N)
  /\ run 1%nat = Ok (py "You're crushing it! " ++ [287; 376; 353; 8364]%N)
  /\ run 0%nat <> run 1%nat.
Proof.
  cbv zeta. repeat split; try (vm_compute; reflexivity).
  vm_compute. discriminate.
Qed.

(** C6, amended: the composer never raises to its caller, for any
    arguments and any world, and it leaves the store and the replies as
    they were; when it fails inside (no API key, an exception of the
    client, no response or a response without text) it returns one of the
    ten strings of [fallback_messages], picked by [random.choice], so two
    failing runs with the same arguments need not return the same one. *)
Theorem composer_never_raises (r g k : option str) (c : option Z) (w : world) :
  exists s w',
    generate_kudos_message r g k c w = (Ok s, w')
    /\ db w' = db w /\ sent w' = sent w
    /\ (composer_fails w = true -> In s fallback_messages)
    /\ length fallback_messages = 10%nat.
Proof.
  destruct (generate_kudos_message_cases r g k c w)
    as (s & w' & E & (Hdb & Hsent & _) & Hfail).
  exists s, w'. repeat split; assumption || reflexivity.
Qed.

(** ** The message handler *)

Lemma for_each_app {A} (l1 l2 : list A) (body : A -> M unit) (w : world) :
  for_each (l1 ++ l2) body w =
  match for_each l1 body w with
  | (Ok _, w1) => for_each l2 body w1
  | (Raised e, w1) => (Raised e, w1)
  end.
Proof.
  revert w. induction l1 as [|x l1 IH]; intros w; [reflexivity|].
  cbn [app for_each]. unfold bind.
  destruct (body x w) as [[[]|e] w1]; [apply IH | reflexivity].
Qed.

Lemma handle_match_self (u : str) ts (msg : str) (w : world) :
  handle_match u ts (u, msg) w
  = (Ok tt, set_sent (sent w ++ [Reply (self_grant_text u) ts]) w).
Proof.
  unfold handle_match. now rewrite bool_decide_eq_true_2.
Qed.

Lemma transaction_fault {A} (f : database -> database * A) (w : world) :
  connections_work 1 w = false ->
  transaction f w = (Raised SqliteError, set_sqlite_faults (tl (sqlite_faults w)) w).
Proof.
  unfold connections_work, transaction.
  destruct (sqlite_faults w) as [|[|] fs]; simpl; try discriminate.
  reflexivity.
Qed.

Lemma transaction_ok {A} (f : database -> database * A) (w : world) :
  connections_work 1 w = true ->
  transaction f w
  = (Ok (f (db w)).2,
     set_db (f (db w)).1 (set_sqlite_faults (tl (sqlite_faults w)) w)).
Proof.
  unfold connections_work, transaction.
  destruct (sqlite_faults w) as [|[|] fs] eqn:E; simpl; try discriminate;
    destruct (f (db w)) as [d a]; simpl; intros _; [|reflexivity].
  f_equal. destruct w; simpl in *. now subst.
Qed.

Lemma connections_work_tl (w w' : world) :
  sqlite_faults w' = tl (sqlite_faults w) ->
  connections_work 2 w = connections_work 1 w && connections_work 1 w'.
Proof.
  unfold connections_work. intros ->.
  destruct (sqlite_faults w) as [|a [|b fs]]; simpl;
    now rewrite ?andb_true_r.
Qed.

(** A match for another user when the connection of [increment_kudos]
    fails. *)
Lemma handle_match_fault_increment (u : str) ts (target msg : str) (w : world) :
  target <> u ->
  connections_work 1 w = false ->
  handle_match u ts (target, msg) w
  = (Raised SqliteError, set_sqlite_faults (tl (sqlite_faults w)) w).
Proof.
  intros Hne Hw. unfold handle_match.
  rewrite bool_decide_eq_false_2 by exact Hne.
  unfold bind at 1. unfold increment_kudos.
  now rewrite transaction_fault.
Qed.

(** A match for another user when the connection of [get_kudos] fails. *)
Lemma handle_match_fault_lookup (u : str) ts (target msg : str) (w : world) :
  target <> u ->
  connections_work 1 w = true ->
  connections_work 2 w = false ->
  exists w',
    handle_match u ts (target, msg) w = (Raised SqliteError, w')
    /\ db w' = increment_statements (clock w) target (Some u)
                 (clean_message msg) (db w)
    /\ sent w' = sent w.
Proof.
  intros Hne H1 H2. unfold handle_match.
  rewrite bool_decide_eq_false_2 by exact Hne.
  unfold bind at 1. unfold increment_kudos.
  rewrite transaction_ok by exact H1. cbn [fst snd].
  set (w1 := set_db _ _).
  assert (Hw1 : connections_work 1 w1 = false).
  { rewrite (connections_work_tl w w1), H1 in H2 by reflexivity. exact H2. }
  unfold bind at 1. unfold get_kudos. rewrite transaction_fault by exact Hw1.
  eexists. split; [reflexivity|]. now split.
Qed.

(** A match for another user on working connections. *)
Lemma handle_match_ok (u : str) ts (target msg : str) (w : world) :
  target <> u ->
  connections_work 2 w = true ->
  exists s w',
    handle_match u ts (target, msg) w = (Ok tt, w')
    /\ db w' = increment_statements (clock w) target (Some u)
                 (clean_message msg) (db w)
    /\ sent w'
       = sent w ++ [Reply (kudos_text target (select_count target (db w) + 1) s) ts]
    /\ sqlite_faults w' = tl (tl (sqlite_faults w)).
Proof.
  intros Hne H2. unfold handle_match.
  rewrite bool_decide_eq_false_2 by exact Hne.
  unfold bind at 1. unfold increment_kudos.
  assert (H1 : connections_work 1 w = true).
  { unfold connections_work in *.
    destruct (sqlite_faults w) as [|[|] [|b fs]]; simpl in *; congruence. }
  rewrite transaction_ok by exact H1. cbn [fst snd].
  set (w1 := set_db _ _).
  assert (Hw1 : connections_work 1 w1 = true).
  { rewrite (connections_work_tl w w1), H1 in H2 by reflexivity. exact H2. }
  unfold bind at 1. unfold get_kudos. rewrite transaction_ok by exact Hw1.
  cbn [fst snd].
  set (w2 := set_db _ _).
  set (n := select_count target (db w1)).
  assert (Hn : n = select_count target (db w) + 1)
    by apply select_count_increment.
  unfold bind at 1.
  destruct (generate_kudos_message_cases None None (clean_message msg) (Some n) w2)
    as (s & w3 & -> & (Hdb & Hsent & Hf & _) & _).
  exists s, (set_sent (sent w3 ++ [Reply (kudos_text target n s) ts]) w3).
  split; [reflexivity|]. rewrite <- Hn. cbn [db sent sqlite_faults set_sent].
  rewrite Hdb, Hsent, Hf. now repeat split.
Qed.

(** The handler is the loop over the matches of the text. *)
Lemma handle_message_events_loop (e : event) (user text : str) (w : world) :
  ev_user e = Some user -> user <> [] -> ev_text e = Some text ->
  handle_message_events e w
  = for_each (findall MENTION_PLUS_PATTERN text)
      (handle_match user (thread_of e)) w.
Proof.
  intros Hu Hne Ht. unfold handle_message_events. rewrite Hu, Ht.
  cbn [default]. destruct text as [|c text]; [reflexivity|].
  now destruct user.
Qed.

(** C4, as stated, fails: in the message [<@U1> ++ hi <@U9> ++ me] of U9
    the second match names the sender, but when the database file cannot
    be used for the first match the handler raises there (the loop has no
    [try]), and no rejection reply is sent for the self-grant; without
    the fault the rejection is sent. *)
Lemma self_grant_unanswered_after_failure :
  let bad := handle_message_events event_grant_then_self world_fault in
  let good := handle_message_events event_grant_then_self world0 in
  findall MENTION_PLUS_PATTERN (py "<@U1> ++ hi <@U9> ++ me")
  = [(py "U1", py "hi "); (py "U9", py "me")]
  /\ bad.1 = Raised SqliteError
  /\ sent bad.2 = []
  /\ good.1 = Ok tt
  /\ List.map reply_text (skipn 1 (sent good.2)) = [self_grant_text (py "U9")].
Proof.
  cbv zeta. repeat split; vm_compute; reflexivity.
Qed.

(** C4, amended: for every message event in which a match names the
    sender as its target, the handler, once the matches before it have
    been processed without a raised error, sends exactly one reply for
    that match, the self-grant rejection, leaves the store as it is, and
    goes on with the remaining matches in order. The message
    [<@U9> ++ thanks] of U9 gives one rejection and no change of the
    store. *)
Theorem self_grant_rejected (e : event) (user text note : str)
    (pre post : list (str * str)) (w w1 : world) :
  ev_user e = Some user -> user <> [] -> ev_text e = Some text ->
  findall MENTION_PLUS_PATTERN text = pre ++ (user, note) :: post ->
  for_each pre (handle_match user (thread_of e)) w = (Ok tt, w1) ->
  exists w2,
    handle_match user (thread_of e) (user, note) w1 = (Ok tt, w2)
    /\ sent w2 = sent w1 ++ [Reply (self_grant_text user) (thread_of e)]
    /\ db w2 = db w1
    /\ handle_message_events e w
       = for_each post (handle_match user (thread_of e)) w2
    /\ handle_message_events event_self_grant world0
       = (Ok tt,
          set_sent [Reply (self_grant_text (py "U9")) (ev_ts event_self_grant)]
                   world0).
Proof.
  intros Hu Hne Ht Hfind Hpre.
  exists (set_sent (sent w1 ++ [Reply (self_grant_text user) (thread_of e)]) w1).
  split; [apply handle_match_self|]. repeat split.
  rewrite (handle_message_events_loop e user text w Hu Hne Ht), Hfind.
  rewrite for_each_app, Hpre. cbn [for_each]. unfold bind at 1.
  now rewrite handle_match_self.
Qed.

Lemma self_grant_rejected_witness :
  let ts := thread_of event_self_between in
  let w1 := (for_each [(py "U1", py "a ")] (handle_match (py "U9") ts) world0).2 in
  exists w2,
    handle_match (py "U9") ts (py "U9", py "b ") w1 = (Ok tt, w2)
    /\ sent w2 = sent w1 ++ [Reply (self_grant_text (py "U9")) ts]
    /\ db w2 = db w1
    /\ handle_message_events event_self_between world0
       = for_each [(py "U2", py "c")] (handle_match (py "U9") ts) w2.
Proof.
  cbv zeta.
  set (ts := thread_of event_self_between).
  set (r := for_each [(py "U1", py "a ")] (handle_match (py "U9") ts) world0).
  assert (Hr : r = (Ok tt, r.2)).
  { assert (H1 : r.1 = Ok tt) by (vm_compute; reflexivity).
    destruct r as [r1 r2]. simpl in *. now subst r1. }
  destruct (self_grant_rejected event_self_between (py "U9")
              (py "<@U1> ++ a <@U9> ++ b <@U2> ++ c") (py "b ")
              [(py "U1", py "a ")] [(py "U2", py "c")] world0 r.2)
    as (w2 & Hm & Hsent & Hdb & Hev & _).
  - reflexivity.
  - discriminate.
  - reflexivity.
  - vm_compute. reflexivity.
  - exact Hr.
  - exists w2. repeat split; assumption.
Defined.

(** C5, as stated, fails: when the database file cannot be used for the
    first match of [<@U1> ++ great job <@U2> ++ nice!] (and could be used
    again afterwards), the handler raises, and the match of U2 is not
    processed: U2 has no kudos and no reply is sent; without the fault
    both matches are processed. *)
Lemma ledger_failure_stops_batch :
  let bad := handle_message_events event_two_grants world_fault in
  let good := handle_message_events event_two_grants world0 in
  findall MENTION_PLUS_PATTERN two_grants
  = [(py "U1", py "great job "); (py "U2", py "nice!")]
  /\ bad.1 = Raised SqliteError
  /\ sqlite_faults bad.2 = []
  /\ sent bad.2 = []
  /\ select_count (py "U2") (db bad.2) = 0
  /\ good.1 = Ok tt
  /\ length (sent good.2) = 2%nat
  /\ select_count (py "U2") (db good.2) = 1.
Proof.
  cbv zeta. repeat split; vm_compute; reflexivity.
Qed.

(** C5, amended: a failure of the store while the handler processes one
    match of a message is not caught: the handler raises the error, sends
    no reply for that match, and does not process the matches after it.
    The matches before it stay processed; if the failing call was
    [get_kudos], the increment of the failing match stays committed. *)
Theorem ledger_failure_aborts (e : event) (user text target note : str)
    (pre post : list (str * str)) (w w1 : world) :
  ev_user e = Some user -> user <> [] -> ev_text e = Some text ->
  findall MENTION_PLUS_PATTERN text = pre ++ (target, note) :: post ->
  for_each pre (handle_match user (thread_of e)) w = (Ok tt, w1) ->
  target <> user ->
  connections_work 2 w1 = false ->
  exists w2,
    handle_message_events e w = (Raised SqliteError, w2)
    /\ sent w2 = sent w1
    /\ db w2 = if connections_work 1 w1
               then increment_statements (clock w1) target (Some user)
                      (clean_message note) (db w1)
               else db w1.
Proof.
  intros Hu Hne Ht Hfind Hpre Htarget H2.
  rewrite (handle_message_events_loop e user text w Hu Hne Ht), Hfind.
  rewrite for_each_app, Hpre. cbn [for_each].
  unfold bind at 1.
  destruct (connections_work 1 w1) eqn:H1.
  - destruct (handle_match_fault_lookup user (thread_of e) target note w1
                Htarget H1 H2) as (w2 & -> & Hdb & Hsent).
    now exists w2.
  - rewrite (handle_match_fault_increment user (thread_of e) target note w1
               Htarget H1).
    eexists. split; [reflexivity|]. now split.
Qed.

Lemma ledger_failure_aborts_witness :
  exists w2,
    handle_message_events event_two_grants world_fault
    = (Raised SqliteError, w2)
    /\ sent w2 = sent world_fault
    /\ db w2 = db world_fault.
Proof.
  apply (ledger_failure_aborts event_two_grants (py "U9") two_grants
           (py "U1") (py "great job ") [] [(py "U2", py "nice!")]
           world_fault world_fault).
  - reflexivity.
  - discriminate.
  - reflexivity.
  - vm_compute. reflexivity.
  - reflexivity.
  - discriminate.
  - reflexivity.
Defined.

(** ** The note that is stored and passed on *)

Lemma after_snoc p (l : str) (c : N) :
  p c = false -> after p (l ++ [c]) = after p l ++ [c].
Proof.
  intros Hc. induction l as [|x l IH]; simpl; [now rewrite Hc|].
  now destruct (p x).
Qed.

Lemma rstrip_cons (c : N) (t : str) :
  is_space c = false -> rstrip (c :: t) = c :: rstrip t.
Proof.
  intros Hc. unfold rstrip, lstrip. simpl rev.
  rewrite after_snoc by exact Hc. now rewrite rev_app_distr.
Qed.

Lemma rstrip_last (s : str) (c : N) :
  last (rstrip s) = Some c -> is_space c = false.
Proof.
  unfold rstrip, lstrip.
  destruct (after is_space (rev s)) as [|x l] eqn:E; [discriminate|].
  simpl rev. rewrite last_snoc. intros [= <-].
  exact (after_head _ _ _ _ E).
Qed.

Lemma rstrip_split (s : str) :
  exists ws, s = rstrip s ++ ws /\ forallb is_space ws = true.
Proof.
  exists (rev (while_ is_space (rev s))). split.
  - unfold rstrip, lstrip. rewrite <- rev_app_distr, while_after.
    now rewrite rev_involutive.
  - apply forallb_forall. intros x Hx%in_rev.
    pose proof (while_all is_space (rev s)) as Hall.
    rewrite forallb_forall in Hall. now apply Hall.
Qed.

Lemma note_upto_head (t note : str) (c : N) :
  note_upto t = Some (c :: note) -> exists t', t = c :: t'.
Proof.
  destruct t as [|x t]; [discriminate|]. cbn [note_upto].
  destruct (is_grant (x :: t)); [discriminate|].
  destruct (x =? LF)%N; [now destruct t|].
  destruct (note_upto t); [|discriminate].
  intros [= -> _]. now exists t.
Qed.

(** The note of a match is empty or starts with a character that is not
    whitespace. *)
Lemma findall_note_head (text name msg : str) :
  In (name, msg) (findall MENTION_PLUS_PATTERN text) ->
  match msg with
  | [] => True
  | c :: _ => is_space c = false
  end.
Proof.
  rewrite findall_pattern. intros Hin.
  destruct (grants_matched_sound _ _ _ Hin) as (pre & rest & _ & Hr).
  destruct (grant_head rest) as [[name' rest']|]; [|easy].
  destruct Hr as [_ Hn]. destruct msg as [|c msg]; [exact I|].
  destruct (note_upto_head _ _ _ Hn) as (t' & Ht).
  exact (after_head _ _ _ _ Ht).
Qed.

(** A grant whose marker is followed by whitespace only. *)
Lemma findall_blank_note (s name rest : str) :
  grant_head s = Some (name, rest) ->
  forallb is_space rest = true ->
  findall MENTION_PLUS_PATTERN s = [(name, [])].
Proof.
  intros Hg Hrest. rewrite findall_pattern.
  assert (Hl : lstrip rest = []).
  { unfold lstrip. rewrite <- (app_nil_r rest). now rewrite after_run. }
  destruct s as [|c s]; [discriminate|].
  assert (Hn : note_upto (lstrip rest) = Some []) by now rewrite Hl.
  destruct (grant_span _ _ _ _ _ Hg Hn) as (u & Hs & Hq).
  cbn [grants_matched]. rewrite Hg, Hn. f_equal.
  rewrite Hs, grants_matched_quiet by exact Hq. now rewrite Hl.
Qed.

(** C8: the note of every extracted match is passed on either as [None],
    when the text after the marker is empty or whitespace only, or as the
    note without whitespace at either end, which is then not empty; the
    handler stores this value in the log row and calls the composer with
    it. *)
Theorem note_cleaned :
  (forall text name msg : str,
     In (name, msg) (findall MENTION_PLUS_PATTERN text) ->
     match clean_message msg with
     | None => msg = []
     | Some m =>
         m = strip msg /\ m <> []
         /\ (forall c, head m = Some c -> is_space c = false)
         /\ (forall c, last m = Some c -> is_space c = false)
         /\ exists ws, msg = m ++ ws /\ forallb is_space ws = true
     end)
  /\ (forall s name rest : str,
        grant_head s = Some (name, rest) ->
        forallb is_space rest = true ->
        findall MENTION_PLUS_PATTERN s = [(name, [])]
        /\ clean_message [] = None)
  /\ (forall (user : str) ts (target msg : str) (w : world),
        target <> user -> user <> [] ->
        handle_match user ts (target, msg) w
        = (_ <- increment_kudos target (Some user) (clean_message msg) ;;
           new_count <- get_kudos target ;;
           ai_message <- generate_kudos_message None None (clean_message msg)
                           (Some new_count) ;;
           say (kudos_text target new_count ai_message) ts) w
        /\ (connections_work 2 w = true ->
            kudos_log (db (handle_match user ts (target, msg) w).2)
            = kudos_log (db w)
              ++ [LogRow (log_seq (db w) + 1) target user (clean_message msg)
                         (clock w)])).
Proof.
  split; [|split].
  - intros text name msg Hin.
    pose proof (findall_note_head _ _ _ Hin) as Hhead.
    destruct msg as [|c msg]; [reflexivity|].
    cbn [clean_message].
    assert (Hs : strip (c :: msg) = c :: rstrip msg).
    { unfold strip, lstrip. cbn [after]. rewrite Hhead.
      now apply rstrip_cons. }
    split; [reflexivity|]. split; [now rewrite Hs|].
    split; [|split].
    + rewrite Hs. now intros x [= <-].
    + intros x. unfold strip. apply rstrip_last.
    + unfold strip, lstrip. cbn [after]. rewrite Hhead.
      apply rstrip_split.
  - intros s name rest Hg Hrest.
    split; [now apply (findall_blank_note s name rest) | reflexivity].
  - intros user ts target msg w Hne Huser. split.
    + unfold handle_match. now rewrite bool_decide_eq_false_2.
    + intros H2.
      destruct (handle_match_ok user ts target msg w Hne H2)
        as (s & w' & -> & Hdb & _).
      cbn [snd]. rewrite Hdb. unfold increment_statements.
      now destruct user.
Qed.

Lemma note_cleaned_witness :
  clean_message (py "great job ") = Some (py "great job")
  /\ findall MENTION_PLUS_PATTERN (py "<@U1> ++  ") = [(py "U1", [])].
Proof.
  split.
  - assert (Hin : In (py "U1", py "great job ")
                    (findall MENTION_PLUS_PATTERN two_grants)).
    { vm_compute. left. reflexivity. }
    pose proof (proj1 note_cleaned _ _ _ Hin) as H.
    cbn [clean_message py] in H. destruct H as (H & _).
    vm_compute. reflexivity.
  - apply (proj1 (proj2 note_cleaned) (py "<@U1> ++  ") (py "U1") (py "  "));
      reflexivity.
Defined.

(** * Further properties of the code *)

(** ** The store: lookups after increments *)

Lemma storage_ok_connections (w : world) :
  storage_ok w = true -> connections_work 1 w = true.
Proof.
  unfold storage_ok, connections_work.
  destruct (sqlite_faults w) as [|a fs]; simpl; [easy|].
  intros [-> _]%andb_prop. reflexivity.
Qed.

Lemma storage_ok_tl (w w' : world) :
  sqlite_faults w' = tl (sqlite_faults w) ->
  storage_ok w = true -> storage_ok w' = true.
Proof.
  unfold storage_ok. intros ->.
  destruct (sqlite_faults w) as [|a fs]; simpl; [easy|].
  now intros [_ ?]%andb_prop.
Qed.

Lemma select_count_increment_other now (u v : str) g m (d : database) :
  u <> v ->
  select_count v (increment_statements now u g m d) = select_count v d.
Proof.
  intros Hne. unfold increment_statements.
  destruct g as [[|g0 g']|]; rewrite ?select_count_insert_log;
    rewrite select_count_upsert; now rewrite bool_decide_eq_false_2.
Qed.

(** X1: on a store whose connections work, after any sequence of calls
    of [increment_kudos] the count of a user is its count before plus the
    number of calls that name the user as receiver (calls for other users
    do not touch it), and [get_kudos] returns that number; in a new
    database it is the number of such calls, so 0 for a user that no call
    names. *)
Theorem lookup_after_increments
    (calls : list (str * option str * option str)) (u : str) (w : world) :
  storage_ok w = true ->
  let n := Z.of_nat (length (List.filter (fun c => bool_decide (c.1.1 = u)) calls)) in
  let w' := run_increments calls w in
  select_count u (db w') = select_count u (db w) + n
  /\ (get_kudos u w').1 = Ok (select_count u (db w) + n)
  /\ db (get_kudos u w').2 = db w'
  /\ (kudos (db w) = ∅ -> (get_kudos u w').1 = Ok n).
Proof.
  intros Hok. cbv zeta.
  assert (H : select_count u (db (run_increments calls w))
              = select_count u (db w)
                + Z.of_nat (length (List.filter (fun c => bool_decide (c.1.1 = u)) calls))
              /\ storage_ok (run_increments calls w) = true).
  { revert w Hok. induction calls as [|[[r g] m] calls IH]; intros w Hok.
    - simpl. split; [lia | exact Hok].
    - cbn [run_increments fold_left].
      pose proof (increment_kudos_db r g m w) as Hd.
      rewrite (storage_ok_connections w Hok) in Hd.
      assert (Hok' : storage_ok (increment_kudos r g m w).2 = true).
      { apply (storage_ok_tl w); [apply increment_kudos_faults | exact Hok]. }
      destruct (IH _ Hok') as [Hc Hs]. split; [|exact Hs].
      unfold run_increments in Hc. rewrite Hc, Hd.
      cbn [List.filter fst]. case_bool_decide as E.
      + subst r. rewrite select_count_increment. cbn [length]. lia.
      + now rewrite select_count_increment_other. }
  destruct H as [Hc Hs].
  pose proof (storage_ok_connections _ Hs) as H1.
  unfold get_kudos. rewrite transaction_ok by exact H1. cbn [fst snd db set_db].
  rewrite Hc. repeat split.
  intros He. unfold select_count at 1. now rewrite He, lookup_empty.
Qed.

Lemma lookup_after_increments_witness :
  (get_kudos (py "U1")
     (run_increments
        [(py "U1", Some (py "U9"), None); (py "U2", Some (py "U9"), None);
         (py "U1", Some (py "U2"), Some (py "thanks"))]
        world0)).1 = Ok 2.
Proof.
  destruct (lookup_after_increments
              [(py "U1", Some (py "U9"), None); (py "U2", Some (py "U9"), None);
               (py "U1", Some (py "U2"), Some (py "thanks"))]
              (py "U1") world0 eq_refl) as (_ & _ & _ & H).
  now apply H.
Defined.

(** ** The store: the log *)

Lemma log_ids_ok_increment now (u : str) g m (d : database) :
  log_ids_ok d -> log_ids_ok (increment_statements now u g m d).
Proof.
  intros (H0 & Hs & Hb). unfold increment_statements.
  destruct g as [[|g0 g']|]; try (repeat split; assumption).
  unfold insert_log, log_ids_ok. cbn [kudos_log log_seq upsert_kudos].
  split; [lia|]. split.
  - rewrite List.map_app. apply StronglySorted_app_2; [|exact Hs|].
    + intros x y Hx Hy. apply list_elem_of_In, in_map_iff in Hx as (r & <- & Hr).
      apply list_elem_of_In in Hy. simpl in Hy. destruct Hy as [<-|[]].
      rewrite List.Forall_forall in Hb. specialize (Hb r Hr). simpl. lia.
    + repeat constructor.
  - apply Forall_app. split.
    + eapply Forall_impl; [exact Hb|]. simpl. intros r Hr. lia.
    + constructor; [|constructor]. simpl. lia.
Qed.

Lemma log_prefix_increment now (u : str) g m (d : database) :
  kudos_log d `prefix_of` kudos_log (increment_statements now u g m d).
Proof.
  unfold increment_statements.
  destruct g as [[|g0 g']|]; try reflexivity.
  now apply prefix_app_r.
Qed.

Lemma counts_positive_increment now (u : str) g m (d : database) :
  counts_positive d -> counts_positive (increment_statements now u g m d).
Proof.
  intros Hd v c.
  assert (H : kudos (increment_statements now u g m d) = kudos (upsert_kudos u d)).
  { unfold increment_statements. now destruct g as [[|g0 g']|]. }
  rewrite H. unfold upsert_kudos. cbn [kudos].
  destruct (decide (u = v)) as [<-|Hne].
  - destruct (kudos d !! u) as [c0|] eqn:E; rewrite lookup_insert_eq;
      intros [= <-]; [|lia].
    specialize (Hd u c0 E). lia.
  - destruct (kudos d !! u) as [c0|] eqn:E; rewrite lookup_insert_ne by exact Hne;
      apply Hd.
Qed.

(** An invariant of the statements of [increment_kudos] is an invariant
    of every sequence of calls, whatever connections fail. *)
Lemma run_increments_invariant (P : database -> Prop)
    (calls : list (str * option str * option str)) (w : world) :
  (forall now u g m d, P d -> P (increment_statements now u g m d)) ->
  P (db w) -> P (db (run_increments calls w)).
Proof.
  intros Hstep. revert w. induction calls as [|[[u g] m] calls IH]; intros w Hw.
  - exact Hw.
  - cbn [run_increments fold_left]. apply IH.
    rewrite increment_kudos_db. destruct (connections_work 1 w); [|exact Hw].
    now apply Hstep.
Qed.

(** X2: the log is append-only and its ids are never reused: after any
    sequence of calls of [increment_kudos] (with or without failing
    connections) the log of before is a prefix of the log, and on a log
    whose ids grow strictly within the sequence, as in a new database,
    the ids still grow strictly, so no two rows share an id. *)
Theorem log_append_only
    (calls : list (str * option str * option str)) (w : world) :
  log_ids_ok (db w) ->
  let d' := db (run_increments calls w) in
  kudos_log (db w) `prefix_of` kudos_log d'
  /\ log_ids_ok d'
  /\ StronglySorted Z.lt (List.map row_id (kudos_log d'))
  /\ NoDup (List.map row_id (kudos_log d'))
  /\ log_ids_ok empty_db.
Proof.
  intros Hw. cbv zeta.
  assert (Hids : log_ids_ok (db (run_increments calls w))).
  { apply run_increments_invariant; [|exact Hw].
    intros. now apply log_ids_ok_increment. }
  split; [|split; [exact Hids|split; [apply Hids|split]]].
  - apply (run_increments_invariant
             (fun d => kudos_log (db w) `prefix_of` kudos_log d)); [|reflexivity].
    intros now u g m d Hd. etrans; [exact Hd | apply log_prefix_increment].
  - destruct Hids as (_ & Hs & _).
    induction Hs as [|x l Hs IH Hx]; constructor; [|exact IH].
    intros Hin. rewrite Forall_forall in Hx. specialize (Hx x Hin). lia.
  - repeat split; try constructor. reflexivity.
Qed.

Lemma log_append_only_witness :
  NoDup (List.map row_id
           (kudos_log (db (run_increments
              [(py "U1", Some (py "U9"), None); (py "U2", Some (py "U9"), None)]
              world0)))).
Proof.
  apply (log_append_only _ world0).
  repeat split; try constructor. reflexivity.
Defined.

(** X3: counts are positive: if every count of the table is at least 1,
    as in a new database, then so it is after any sequence of calls of
    [increment_kudos]; hence [get_kudos] of a user with a row is never 0
    or negative. *)
Theorem counts_stay_positive
    (calls : list (str * option str * option str)) (w : world) :
  counts_positive (db w) ->
  counts_positive (db (run_increments calls w))
  /\ counts_positive empty_db
  /\ (forall u, is_Some (kudos (db (run_increments calls w)) !! u) ->
        1 <= select_count u (db (run_increments calls w))).
Proof.
  intros Hw.
  assert (H : counts_positive (db (run_increments calls w))).
  { apply run_increments_invariant; [|exact Hw].
    intros. now apply counts_positive_increment. }
  split; [exact H|]. split.
  - intros u c. unfold empty_db. cbn [kudos]. now rewrite lookup_empty.
  - intros u [c Hc]. unfold select_count. rewrite Hc. exact (H u c Hc).
Qed.

Lemma counts_stay_positive_witness :
  counts_positive
    (db (run_increments [(py "U1", None, None); (py "U1", Some (py "U9"), None)]
           world0)).
Proof.
  apply (counts_stay_positive _ world0).
  intros u c. unfold world0, empty_db. cbn [db kudos]. now rewrite lookup_empty.
Defined.

(** ** The leaderboard and the table *)

Lemma select_leaderboard_sublist (limit : Z) (d : database) :
  select_leaderboard limit d
  `sublist_of` merge_sort (row_order d) (map_to_list (kudos d)).
Proof.
  unfold select_leaderboard.
  destruct (limit <? 0); [reflexivity | apply sublist_take].
Qed.

Lemma select_leaderboard_row (limit : Z) (d : database) (u : str) (c : Z) :
  (u, c) ∈ select_leaderboard limit d -> kudos d !! u = Some c.
Proof.
  intros Hin. apply elem_of_map_to_list.
  rewrite <- (merge_sort_Permutation (row_order d)).
  exact (elem_of_sublist _ _ _ Hin (select_leaderboard_sublist limit d)).
Qed.

(** X4: every row that [get_leaderboard(n)] returns on a working
    connection is a row of the table with its current count (the count
    that [get_kudos] returns), no user is listed twice, and the number of
    rows is the smaller of n and the number of users for n >= 0 and the
    number of users for a negative n. *)
Theorem leaderboard_rows (n : Z) (w : world) :
  connections_work 1 w = true ->
  exists rows,
    (get_leaderboard n w).1 = Ok rows
    /\ (forall u c, (u, c) ∈ rows ->
          kudos (db w) !! u = Some c /\ select_count u (db w) = c)
    /\ NoDup (rows.*1)
    /\ length rows = if n <? 0 then size (kudos (db w))
                     else Nat.min (Z.to_nat n) (size (kudos (db w))).
Proof.
  intros Hup. exists (select_leaderboard n (db w)).
  split; [|split; [|split]].
  - unfold get_leaderboard. now rewrite transaction_ok.
  - intros u c Hin. pose proof (select_leaderboard_row _ _ _ _ Hin) as H.
    split; [exact H|]. unfold select_count. now rewrite H.
  - eapply sublist_NoDup;
      [|apply fmap_sublist, (select_leaderboard_sublist n (db w))].
    rewrite (merge_sort_Permutation (row_order (db w))).
    apply NoDup_fst_map_to_list.
  - unfold select_leaderboard.
    destruct (n <? 0); rewrite ?length_take;
      now rewrite (merge_sort_Permutation (row_order (db w))), length_map_to_list.
Qed.

Lemma leaderboard_rows_witness :
  exists rows,
    (get_leaderboard 10 world0).1 = Ok rows /\ length rows = 0%nat.
Proof.
  destruct (leaderboard_rows 10 world0 eq_refl) as (rows & Hr & _ & _ & Hl).
  exists rows. split; [exact Hr|]. rewrite Hl. reflexivity.
Defined.

(** X5: the rows that [get_leaderboard(n)] returns for n >= 0 are rows
    with the highest counts: a user of the table that is not listed has a
    count that is at most the count of every listed row. *)
Theorem leaderboard_highest (n : Z) (w : world) (u v : str) (c c' : Z) :
  0 <= n ->
  connections_work 1 w = true ->
  kudos (db w) !! u = Some c ->
  (u, c) ∉ select_leaderboard n (db w) ->
  (v, c') ∈ select_leaderboard n (db w) ->
  (get_leaderboard n w).1 = Ok (select_leaderboard n (db w)) /\ c <= c'.
Proof.
  intros Hn Hup Hu Hout Hin. split.
  { unfold get_leaderboard. now rewrite transaction_ok. }
  unfold select_leaderboard in Hout, Hin.
  destruct (n <? 0) eqn:E; [lia|].
  set (sorted := merge_sort (row_order (db w)) (map_to_list (kudos (db w)))) in *.
  assert (Hs : StronglySorted count_desc
                 (take (Z.to_nat n) sorted ++ drop (Z.to_nat n) sorted)).
  { rewrite take_drop.
    apply (StronglySorted_weaken _ _ _ (row_order_count_desc (db w))).
    apply StronglySorted_merge_sort; apply _. }
  assert (Hall : (u, c) ∈ sorted).
  { unfold sorted. rewrite (merge_sort_Permutation (row_order (db w))).
    now apply elem_of_map_to_list. }
  rewrite <- (take_drop (Z.to_nat n) sorted) in Hall.
  apply elem_of_app in Hall as [Hall|Hall]; [contradiction|].
  exact (StronglySorted_app_1_elem_of _ _ _ _ _ Hs Hin Hall).
Qed.

Lemma leaderboard_highest_witness :
  let w := run_increments
             [(py "U1", Some (py "U9"), None); (py "U2", Some (py "U9"), None);
              (py "U2", Some (py "U1"), None)] world0 in
  select_leaderboard 1 (db w) = [(py "U2", 2)] /\ 1 <= 2.
Proof.
  cbv zeta. split; [vm_compute; reflexivity|].
  refine (proj2 (leaderboard_highest 1
            (run_increments
               [(py "U1", Some (py "U9"), None); (py "U2", Some (py "U9"), None);
                (py "U2", Some (py "U1"), None)] world0)
            (py "U1") (py "U2") 1 2 _ _ _ _ _)).
  - lia.
  - reflexivity.
  - vm_compute. reflexivity.
  - intros H. vm_compute in H. apply list_elem_of_In in H.
    destruct H as [H|[]]. discriminate.
  - apply list_elem_of_In. vm_compute. left. reflexivity.
Defined.

(** ** The message handler, match by match *)

Lemma storage_ok_works (n : nat) (w : world) :
  storage_ok w = true -> connections_work n w = true.
Proof.
  unfold storage_ok, connections_work. intros H.
  rewrite <- (take_drop n (sqlite_faults w)), forallb_app in H.
  now apply andb_prop in H as [? _].
Qed.

Lemma storage_ok_drop (k : nat) (w w' : world) :
  sqlite_faults w' = drop k (sqlite_faults w) ->
  storage_ok w = true -> storage_ok w' = true.
Proof.
  unfold storage_ok. intros -> H.
  rewrite <- (take_drop k (sqlite_faults w)), forallb_app in H.
  now apply andb_prop in H as [_ ?].
Qed.

(** What the body of the loop does with a match for another user, by the
    connections that work. *)
Lemma handle_match_other (u : str) ts (target msg : str) (w : world) :
  target <> u ->
  let d1 := increment_statements (clock w) target (Some u)
              (clean_message msg) (db w) in
  if connections_work 1 w then
    if connections_work 2 w then
      exists s w',
        handle_match u ts (target, msg) w = (Ok tt, w')
        /\ db w' = d1
        /\ sent w'
           = sent w ++ [Reply (kudos_text target (select_count target (db w) + 1) s) ts]
        /\ sqlite_faults w' = drop 2 (sqlite_faults w)
        /\ clock w' = clock w
    else
      exists w',
        handle_match u ts (target, msg) w = (Raised SqliteError, w')
        /\ db w' = d1 /\ sent w' = sent w
        /\ sqlite_faults w' = drop 2 (sqlite_faults w)
        /\ clock w' = clock w
  else
    handle_match u ts (target, msg) w
    = (Raised SqliteError, set_sqlite_faults (drop 1 (sqlite_faults w)) w).
Proof.
  intros Hne. cbv zeta.
  destruct (connections_work 1 w) eqn:H1.
  2:{ rewrite (handle_match_fault_increment u ts target msg w Hne H1).
      now destruct (sqlite_faults w). }
  set (w1 := set_db (increment_statements (clock w) target (Some u)
                       (clean_message msg) (db w))
               (set_sqlite_faults (tl (sqlite_faults w)) w)).
  assert (Hf1 : sqlite_faults w1 = drop 1 (sqlite_faults w)).
  { unfold w1. cbn. now destruct (sqlite_faults w). }
  assert (H12 : connections_work 2 w = connections_work 1 w1).
  { rewrite (connections_work_tl w w1), H1; [reflexivity|].
    rewrite Hf1. now destruct (sqlite_faults w). }
  rewrite H12.
  destruct (connections_work 1 w1) eqn:Hw1.
  - unfold handle_match. rewrite bool_decide_eq_false_2 by exact Hne.
    unfold bind at 1. unfold increment_kudos.
    rewrite transaction_ok by exact H1. cbn [fst snd]. fold w1.
    unfold bind at 1. unfold get_kudos.
    rewrite transaction_ok by exact Hw1. cbn [fst snd].
    set (w2 := set_db (db w1) _).
    set (n := select_count target (db w1)).
    assert (Hn : n = select_count target (db w) + 1)
      by apply select_count_increment.
    unfold bind at 1.
    destruct (generate_kudos_message_cases None None (clean_message msg) (Some n) w2)
      as (s & w3 & -> & (Hdb & Hsent & Hf & Hc) & _).
    exists s, (set_sent (sent w3 ++ [Reply (kudos_text target n s) ts]) w3).
    split; [reflexivity|]. rewrite <- Hn.
    cbn [db sent sqlite_faults clock set_sent].
    rewrite Hdb, Hsent, Hf, Hc. repeat split.
    unfold w2, w1. cbn. now destruct (sqlite_faults w) as [|? [|? ?]].
  - unfold handle_match. rewrite bool_decide_eq_false_2 by exact Hne.
    unfold bind at 1. unfold increment_kudos.
    rewrite transaction_ok by exact H1. cbn [fst snd]. fold w1.
    unfold bind at 1. unfold get_kudos.
    rewrite transaction_fault by exact Hw1.
    eexists. split; [reflexivity|]. unfold w1. cbn. repeat split.
    now destruct (sqlite_faults w) as [|? [|? ?]].
Qed.

(** The effect of the body of the loop in any world. *)
Lemma handle_match_effect (u : str) ts (m : str * str) (w : world) :
  let w' := (handle_match u ts m w).2 in
  clock w' = clock w
  /\ (exists k, sqlite_faults w' = drop k (sqlite_faults w))
  /\ (db w' = db w
      \/ (m.1 <> u
          /\ db w' = increment_statements (clock w) m.1 (Some u)
                       (clean_message m.2) (db w)))
  /\ (exists rs, sent w' = sent w ++ rs
                 /\ Forall (fun r => reply_thread_ts r = ts) rs
                 /\ (length rs <= 1)%nat).
Proof.
  destruct m as [target msg]. cbv zeta.
  destruct (decide (target = u)) as [->|Hne].
  - rewrite handle_match_self. cbn. repeat split.
    + now exists 0%nat.
    + now left.
    + eexists. split; [reflexivity|]. split; [|simpl; lia].
      now repeat constructor.
  - pose proof (handle_match_other u ts target msg w Hne) as H. cbv zeta in H.
    destruct (connections_work 1 w); [destruct (connections_work 2 w)|].
    + destruct H as (s & w' & -> & Hdb & Hsent & Hf & Hc). cbn [snd fst].
      split; [exact Hc|]. split; [now exists 2%nat|].
      split; [right; now split|].
      eexists. split; [exact Hsent|]. split; [|simpl; lia].
      now repeat constructor.
    + destruct H as (w' & -> & Hdb & Hsent & Hf & Hc). cbn [snd fst].
      split; [exact Hc|]. split; [now exists 2%nat|].
      split; [right; now split|].
      exists []. rewrite app_nil_r. split; [exact Hsent|].
      split; [constructor | simpl; lia].
    + rewrite H. cbn. split; [reflexivity|]. split; [now exists 1%nat|].
      split; [now left|].
      exists []. rewrite app_nil_r. split; [reflexivity|].
      split; [constructor | simpl; lia].
Qed.

(** A property of worlds that every turn of a loop keeps holds at the end
    of the loop, whether the loop returns or raises. *)
Lemma for_each_invariant {A} (P : world -> Prop) (body : A -> M unit)
    (l : list A) (w : world) :
  (forall x w, P w -> P (body x w).2) ->
  P w -> P (for_each l body w).2.
Proof.
  intros Hstep. revert w. induction l as [|x l IH]; intros w Hw; [exact Hw|].
  cbn [for_each]. unfold bind. specialize (Hstep x w Hw).
  destruct (body x w) as [[[]|e] w1]; [now apply IH | exact Hstep].
Qed.

(** The handler is a loop over the matches, or does nothing. *)
Lemma handle_message_events_cases (e : event) (w : world) :
  handle_message_events e w = (Ok tt, w)
  \/ exists user text,
       ev_user e = Some user /\ user <> [] /\ ev_text e = Some text
       /\ handle_message_events e w
          = for_each (findall MENTION_PLUS_PATTERN text)
              (handle_match user (thread_of e)) w.
Proof.
  unfold handle_message_events.
  destruct (ev_text e) as [[|c text]|] eqn:Ht; cbn [default];
    try (left; reflexivity).
  destruct (ev_user e) as [[|u0 user]|] eqn:Hu; try (left; reflexivity).
  right. exists (u0 :: user), (c :: text). now repeat split.
Qed.

(** ** The message handler, message by message *)

(** X6: a message without text, without a sender, or whose text has no
    well-formed grant is discarded silently: the handler returns, sends
    nothing and does not use the database file. *)
Theorem silent_discard (e : event) (w : world) :
  truthy (ev_user e) = false
  \/ truthy (ev_text e) = false
  \/ count_grants (default [] (ev_text e)) = 0%nat ->
  handle_message_events e w = (Ok tt, w).
Proof.
  intros H. unfold handle_message_events.
  destruct (ev_text e) as [[|c text]|]; cbn [default]; try reflexivity.
  destruct (ev_user e) as [[|u0 user]|]; try reflexivity.
  destruct H as [H|[H|H]]; try discriminate.
  cbn [default] in H.
  now rewrite findall_pattern, (grants_matched_none _ H).
Qed.

Lemma silent_discard_witness :
  handle_message_events
    (Event (Some (py "U9")) (Some (py "thanks <@u1> ++ and ++")) None None)
    world_fault
  = (Ok tt, world_fault).
Proof.
  apply silent_discard. right. right. reflexivity.
Defined.

(** The loop on a store whose connections work. *)
Lemma for_each_granted (u : str) ts (ms : list (str * str)) (w : world) :
  storage_ok w = true ->
  exists replies w',
    for_each ms (handle_match u ts) w = (Ok tt, w')
    /\ sent w' = sent w ++ replies
    /\ Forall2 (reply_for u ts) ms replies
    /\ db w' = apply_grants (clock w) u ms (db w)
    /\ storage_ok w' = true.
Proof.
  revert w. induction ms as [|[target msg] ms IH]; intros w Hok.
  - exists [], w. rewrite app_nil_r. now repeat split.
  - cbn [for_each]. unfold bind at 1. unfold apply_grants, granted.
    cbn [List.filter fst].
    destruct (decide (target = u)) as [->|Hne].
    + rewrite handle_match_self, bool_decide_eq_true_2 by reflexivity.
      cbn [negb].
      set (w1 := set_sent _ w).
      destruct (IH w1 Hok) as (replies & w' & -> & Hsent & Hall & Hdb & Hok').
      exists (Reply (self_grant_text u) ts :: replies), w'.
      split; [reflexivity|]. split.
      { rewrite Hsent. unfold w1. cbn. now rewrite <- app_assoc. }
      split; [|now split].
      constructor; [|exact Hall]. split; [reflexivity|].
      cbn [fst]. now rewrite bool_decide_eq_true_2.
    + pose proof (handle_match_other u ts target msg w Hne) as H.
      cbv zeta in H.
      rewrite (storage_ok_works 1 w Hok), (storage_ok_works 2 w Hok) in H.
      destruct H as (s & w1 & -> & Hdb1 & Hsent1 & Hf1 & Hc1).
      rewrite bool_decide_eq_false_2 by exact Hne. cbn [negb fold_left fst snd].
      destruct (IH w1 (storage_ok_drop 2 w w1 Hf1 Hok))
        as (replies & w' & -> & Hsent & Hall & Hdb & Hok').
      eexists (_ :: replies), w'.
      split; [reflexivity|]. split.
      { rewrite Hsent, Hsent1, <- app_assoc. reflexivity. }
      split; [|split; [|exact Hok']].
      * constructor; [|exact Hall]. split; [reflexivity|].
        cbn [fst]. rewrite bool_decide_eq_false_2 by exact Hne.
        now eexists _, _.
      * rewrite Hdb, Hdb1, Hc1. reflexivity.
Qed.



Lemma apply_grants_count now (user v : str) (ms : list (str * str))
    (d : database) :
  select_count v (apply_grants now user ms d)
  = select_count v d
    + if bool_decide (v = user) then 0
      else Z.of_nat (length (List.filter (fun m => bool_decide (m.1 = v)) ms)).
Proof.
  unfold apply_grants, granted.
  revert d. induction ms as [|[target msg] ms IH]; intros d.
  - simpl. case_bool_decide; lia.
  - cbn [List.filter fst]. destruct (decide (target = user)) as [->|Hne].
    + rewrite bool_decide_eq_true_2 by reflexivity. cbn [negb]. rewrite IH.
      case_bool_decide as Ev; [reflexivity|].
      rewrite (bool_decide_eq_false_2 (user = v)) by congruence. reflexivity.
    + rewrite bool_decide_eq_false_2 by exact Hne. cbn [negb fold_left fst snd].
      rewrite IH. destruct (decide (target = v)) as [->|Hv].
      * rewrite select_count_increment.
        rewrite (bool_decide_eq_false_2 (v = user)) by exact Hne.
        rewrite (bool_decide_eq_true_2 (v = v)) by reflexivity.
        cbn [length]. lia.
      * rewrite select_count_increment_other by exact Hv.
        rewrite (bool_decide_eq_false_2 (target = v)) by exact Hv.
        reflexivity.
Qed.

(** X8: on a store whose connections work, a message raises the count of
    every user other than its sender by the number of its matches that
    name that user, and leaves the count of the sender as it was. *)
Theorem counts_after_message (e : event) (user text v : str) (w : world) :
  ev_user e = Some user -> user <> [] -> ev_text e = Some text ->
  storage_ok w = true ->
  select_count v (db (handle_message_events e w).2)
  = select_count v (db w)
    + if bool_decide (v = user) then 0
      else Z.of_nat
             (length (List.filter (fun m => bool_decide (m.1 = v))
                        (findall MENTION_PLUS_PATTERN text))).
Proof.
  intros Hu Hne Ht Hok.
  rewrite (handle_message_events_loop e user text w Hu Hne Ht).
  destruct (for_each_granted user (thread_of e)
              (findall MENTION_PLUS_PATTERN text) w Hok)
    as (replies & w' & -> & _ & _ & Hdb & _).
  cbn [snd]. rewrite Hdb. apply apply_grants_count.
Qed.

Lemma counts_after_message_witness :
  select_count (py "U2") (db (handle_message_events event_two_grants world0).2)
  = select_count (py "U2") (db world0) + 1.
Proof.
  apply (counts_after_message event_two_grants (py "U9") two_grants (py "U2")
           world0); reflexivity || discriminate.
Defined.

Lemma no_self_grant_increment now (target user : str) m (d : database) :
  target <> user -> user <> [] -> no_self_grant d ->
  no_self_grant (increment_statements now target (Some user) m d).
Proof.
  intros Hne Hu Hd. unfold increment_statements, no_self_grant.
  destruct user as [|u0 user]; [easy|].
  cbn [insert_log kudos_log upsert_kudos]. apply Forall_app. split; [exact Hd|].
  constructor; [|constructor]. now split.
Qed.

(** An invariant of the increments that the handler makes is an
    invariant of the handler, for every event and every world. *)
Lemma handler_db_invariant (I : database -> Prop) (e : event) (w : world) :
  (forall now (target user : str) m d,
     target <> user -> user <> [] -> I d ->
     I (increment_statements now target (Some user) m d)) ->
  I (db w) -> I (db (handle_message_events e w).2).
Proof.
  intros Hstep Hw.
  destruct (handle_message_events_cases e w)
    as [-> | (user & text & Hu & Hne & Ht & ->)]; [exact Hw|].
  apply (for_each_invariant (fun w => I (db w))); [|exact Hw].
  intros m w0 Hw0.
  destruct (handle_match_effect user (thread_of e) m w0)
    as (_ & _ & [-> | [Hm ->]] & _); [exact Hw0|].
  now apply Hstep.
Qed.

(** X9: the handler keeps the store well-formed for every event and in
    every world, also when a connection fails and it raises midway: if
    counts and log agree before, they agree after; if no log row has the
    giver as its receiver before, none has after (a self-grant is never
    stored); the ids of the log keep growing strictly; counts stay
    positive; and the log of before is a prefix of the log after. *)
Theorem handler_keeps_store (e : event) (w : world) :
  let d' := db (handle_message_events e w).2 in
  (consistent (db w) -> consistent d')
  /\ (no_self_grant (db w) -> no_self_grant d')
  /\ (log_ids_ok (db w) -> log_ids_ok d')
  /\ (counts_positive (db w) -> counts_positive d')
  /\ kudos_log (db w) `prefix_of` kudos_log d'.
Proof.
  cbv zeta. split; [|split; [|split; [|split]]].
  - apply handler_db_invariant. intros. now apply consistent_increment.
  - apply handler_db_invariant. intros. now apply no_self_grant_increment.
  - apply handler_db_invariant. intros. now apply log_ids_ok_increment.
  - apply handler_db_invariant. intros. now apply counts_positive_increment.
  - apply (handler_db_invariant
             (fun d => kudos_log (db w) `prefix_of` kudos_log d)); [|reflexivity].
    intros now target user m d _ _ Hd.
    etrans; [exact Hd | apply log_prefix_increment].
Qed.

(** X10: whatever happens, the handler only adds replies, all in the
    thread of the event ([thread_ts], or [ts] when the event is not in a
    thread), and never more than one for each match of the text. *)
Theorem replies_in_thread (e : event) (w : world) :
  exists rs,
    sent (handle_message_events e w).2 = sent w ++ rs
    /\ Forall (fun r => reply_thread_ts r = thread_of e) rs
    /\ (length rs
        <= length (findall MENTION_PLUS_PATTERN (default [] (ev_text e))))%nat.
Proof.
  destruct (handle_message_events_cases e w)
    as [-> | (user & text & Hu & Hne & Ht & ->)].
  { exists []. rewrite app_nil_r. split; [reflexivity|].
    split; [constructor | simpl; lia]. }
  rewrite Ht. change (default [] (Some text)) with text.
  generalize (findall MENTION_PLUS_PATTERN text). intros ms.
  revert w. induction ms as [|m ms IH]; intros w.
  { exists []. rewrite app_nil_r. split; [reflexivity|].
    split; [constructor | simpl; lia]. }
  cbn [for_each]. unfold bind at 1.
  destruct (handle_match_effect user (thread_of e) m w)
    as (_ & _ & _ & (rs1 & Hs1 & Ht1 & Hl1)).
  destruct (handle_match user (thread_of e) m w) as [[[]|err] w1];
    cbn [snd] in Hs1.
  - destruct (IH w1) as (rs & Hs & Hall & Hl).
    exists (rs1 ++ rs). rewrite Hs, Hs1, <- app_assoc.
    split; [reflexivity|]. split; [now apply Forall_app|].
    rewrite length_app. simpl. lia.
  - exists rs1. cbn [snd]. split; [exact Hs1|]. split; [exact Ht1|].
    simpl. lia.
Qed.

(** X11: a grant to another user on working connections: the body of the
    loop commits one increment, appends one log row with the target as
    receiver, the sender as giver and the cleaned note, and sends one
    reply in the thread that reports the count of the target before the
    grant plus 1, which is the count that the store now holds. *)
Theorem grant_committed (user : str) (ts : option str) (target msg : str)
    (w : world) :
  target <> user -> user <> [] ->
  connections_work 2 w = true ->
  exists s w',
    handle_match user ts (target, msg) w = (Ok tt, w')
    /\ select_count target (db w') = select_count target (db w) + 1
    /\ kudos_log (db w')
       = kudos_log (db w)
         ++ [LogRow (log_seq (db w) + 1) target user (clean_message msg) (clock w)]
    /\ sent w'
       = sent w
         ++ [Reply (kudos_text target (select_count target (db w) + 1) s) ts]
    /\ (forall v, v <> target -> select_count v (db w') = select_count v (db w)).
Proof.
  intros Hne Hu H2.
  pose proof (handle_match_other user ts target msg w Hne) as H. cbv zeta in H.
  assert (H1 : connections_work 1 w = true).
  { unfold connections_work in *.
    destruct (sqlite_faults w) as [|[|] [|b fs]]; simpl in *; congruence. }
  rewrite H1, H2 in H. destruct H as (s & w' & E & Hdb & Hsent & _).
  exists s, w'. split; [exact E|]. rewrite Hdb.
  split; [apply select_count_increment|]. split; [|split; [exact Hsent|]].
  - unfold increment_statements. now destruct user.
  - intros v Hv. now apply select_count_increment_other.
Qed.

Lemma grant_committed_witness :
  exists s w',
    handle_match (py "U9") None (py "U1", py "thanks ") world0 = (Ok tt, w')
    /\ select_count (py "U1") (db w') = select_count (py "U1") (db world0) + 1
    /\ sent w'
       = sent world0
         ++ [Reply (kudos_text (py "U1") (select_count (py "U1") (db world0) + 1) s)
                   None].
Proof.
  destruct (grant_committed (py "U9") None (py "U1") (py "thanks ") world0)
    as (s & w' & E & Hc & _ & Hs & _).
  - discriminate.
  - discriminate.
  - reflexivity.
  - now exists s, w'.
Defined.

(** ** The composer: what it asks and what it returns *)

Lemma strip_blank (t : str) : forallb is_space t = true -> strip t = [].
Proof.
  intros H. unfold strip, lstrip.
  rewrite <- (app_nil_r t), after_run by exact H. reflexivity.
Qed.

Lemma join_part (sep x : str) (l1 l2 : list str) :
  exists pre post, join sep (l1 ++ x :: l2) = pre ++ x ++ post.
Proof.
  induction l1 as [|y l1 IH].
  - destruct l2 as [|z l2].
    + exists [], []. simpl. now rewrite app_nil_r.
    + exists [], (sep ++ join sep (z :: l2)). reflexivity.
  - destruct IH as (pre & post & IH).
    exists (y ++ sep ++ pre), post.
    change (join sep ((y :: l1) ++ x :: l2))
      with (match l1 ++ x :: l2 with
            | [] => y
            | _ => y ++ sep ++ join sep (l1 ++ x :: l2)
            end).
    destruct (l1 ++ x :: l2) eqn:E; [now destruct l1|].
    rewrite IH. now rewrite <- !app_assoc.
Qed.

Lemma prompt_for_context :
  exists a b, forall ctx, prompt_for ctx = a ++ ctx ++ b.
Proof.
  exists (py "Generate a short, encouraging, positive, and witty message (1-2 sentences max) "
          ++ [LF] ++ py "to celebrate someone receiving kudos ").
  eexists. intros ctx. unfold prompt_for.
  rewrite <- !app_assoc. reflexivity.
Qed.

(** X12: with an API key, the composer sends exactly one prompt to
    Gemini in each call, whatever the answer, and takes one answer; the
    prompt holds the note, as it is, between single quotes when there is
    a note. Without a key it sends nothing and takes no answer, and
    returns a fallback string. *)
Theorem composer_request (r g k : option str) (c : option Z) (w : world) :
  let w' := (generate_kudos_message r g k c w).2 in
  if truthy (GEMINI_API_KEY w) then
    exists prompt,
      prompts w' = prompts w ++ [prompt]
      /\ api_answers w' = tl (api_answers w)
      /\ (forall note, k = Some note -> note <> [] ->
            exists pre post,
              prompt = pre ++ py "with the message: '" ++ note ++ py "'" ++ post)
  else
    prompts w' = prompts w
    /\ api_answers w' = api_answers w
    /\ exists s, (generate_kudos_message r g k c w).1 = Ok s
                 /\ In s fallback_messages.
Proof.
  cbv zeta.
  unfold generate_kudos_message, try_except, generate_kudos_message_body.
  assert (Hfb : forall w0, exists s w1,
            get_fallback_message w0 = (Ok s, w1) /\ In s fallback_messages
            /\ prompts w1 = prompts w0 /\ api_answers w1 = api_answers w0).
  { intros w0. unfold get_fallback_message, random_choice.
    change fallback_messages with (hd [] fallback_messages :: tl fallback_messages).
    destruct (randoms w0) as [|r0 rs].
    - eexists _, _. split; [reflexivity|]. split; [now left|]. now split.
    - eexists _, _. split; [reflexivity|]. split; [|now split].
      apply nth_In. apply Nat.mod_upper_bound. discriminate. }
  destruct (truthy (GEMINI_API_KEY w)); cbn [negb].
  - set (ctx := match context_parts r g k c with
                | [] => py "for great work"
                | _ => join (py " ") (context_parts r g k c)
                end).
    exists (prompt_for ctx).
    assert (Hnote : forall note, k = Some note -> note <> [] ->
              exists pre post,
                prompt_for ctx
                = pre ++ py "with the message: '" ++ note ++ py "'" ++ post).
    { intros note -> Hn. unfold ctx, context_parts.
      assert (Ht : truthy (Some note) = true) by now destruct note.
      rewrite Ht. cbn [default].
      set (l1 := if truthy g then _ else _).
      set (l2 := if truthy r then _ else _).
      set (l3 := match c with Some _ => _ | None => _ end).
      set (part := py "with the message: '" ++ id note ++ py "'").
      replace (l1 ++ l2 ++ [part] ++ l3) with ((l1 ++ l2) ++ part :: l3)
        by now rewrite <- app_assoc.
      destruct (join_part (py " ") part (l1 ++ l2) l3) as (pre & post & E).
      destruct ((l1 ++ l2) ++ part :: l3) eqn:El;
        [now destruct (l1 ++ l2)|].
      rewrite E. destruct prompt_for_context as (a & b & Hab).
      exists (a ++ pre), (post ++ b). rewrite Hab. unfold part.
      change (id note) with note.
      now rewrite <- !app_assoc. }
    unfold bind, generate_content.
    destruct (api_answers w) as [|[|[[[[|t0 t]|]]|]] rest] eqn:Eans;
      cbn [fst snd tl];
      try (match goal with
           | |- context [get_fallback_message ?w0] =>
               destruct (Hfb w0) as (s & w1 & -> & _ & Hp & Ha);
               cbn [snd]; rewrite Hp, Ha
           end);
      cbn [prompts api_answers set_prompts set_api_answers ret snd];
      rewrite ?Eans;
      (split; [reflexivity|]); (split; [reflexivity|]); exact Hnote.
  - destruct (Hfb w) as (s & w1 & -> & Hin & Hp & Ha). cbn [fst snd].
    split; [exact Hp|]. split; [exact Ha|]. now exists s.
Qed.

(** X13: with an API key and an answer of Gemini whose text is not
    empty, the composer returns that text without the whitespace at its
    ends and draws no fallback; a text of whitespace only is returned as
    the empty string, not replaced by a fallback. *)
Theorem composer_success (r g k : option str) (c : option Z) (w : world)
    (t : str) (rest : list api_answer) :
  truthy (GEMINI_API_KEY w) = true ->
  api_answers w = ApiReturns (Some (Response (Some t))) :: rest ->
  t <> [] ->
  (generate_kudos_message r g k c w).1 = Ok (strip t)
  /\ randoms (generate_kudos_message r g k c w).2 = randoms w
  /\ api_answers (generate_kudos_message r g k c w).2 = rest
  /\ (forallb is_space t = true -> strip t = []).
Proof.
  intros Hkey Hans Ht.
  unfold generate_kudos_message, try_except, generate_kudos_message_body.
  rewrite Hkey. cbn [negb]. unfold bind, generate_content. rewrite Hans.
  destruct t as [|t0 t]; [easy|].
  cbn [fst snd randoms api_answers set_api_answers set_prompts ret].
  split; [reflexivity|]. split; [reflexivity|]. split; [reflexivity|].
  apply strip_blank.
Qed.

Lemma composer_success_witness :
  (generate_kudos_message None None None (Some 1)
     (World empty_db [] [] 0 (Some (py "key"))
        [] [ApiReturns (Some (Response (Some (py " Well done! "))))] [])).1
  = Ok (py "Well done!").
Proof.
  refine (proj1 (composer_success None None None (Some 1) _ (py " Well done! ")
                   [] _ _ _)); reflexivity || discriminate.
Defined.

(** ** The handler of mentions *)

Example leaderboard_text_two :
  leaderboard_text [(py "U2", 2); (py "U1", 1)]
  = py ":trophy: *Kudos Leaderboard:*" ++ [LF]
    ++ py "1. <@U2> " ++ [226; 8364; 8221]%N ++ py " 2 kudos" ++ [LF]
    ++ py "2. <@U1> " ++ [226; 8364; 8221]%N ++ py " 1 kudos" ++ [LF].
Proof. vm_compute. reflexivity. Qed.

Example mention_asks_leaderboard :
  contains (py "leaderboard") (lower_ascii (py "<@UBOT> show the LeaderBoard!"))
  = true.
Proof. vm_compute. reflexivity. Qed.

Lemma select_leaderboard_nil (d : database) :
  select_leaderboard 10 d = [] <-> kudos d = ∅.
Proof.
  split; [|apply select_leaderboard_empty].
  intros H. apply map_size_empty_iff.
  assert (Hl : length (select_leaderboard 10 d) = 0%nat) by now rewrite H.
  unfold select_leaderboard in Hl. cbn [Z.ltb Z.compare] in Hl.
  rewrite length_take, (merge_sort_Permutation (row_order d)),
    length_map_to_list in Hl.
  lia.
Qed.

(** X14: the handler of mentions never writes to the store. When the
    lower-cased text does not contain [leaderboard] it sends the help
    text, once, in the thread of the event, without using the database
    file; when it does and the connection fails, the handler raises and
    sends nothing. *)
Theorem mention_help_or_fault (lower : str -> str) (e : event) (w : world) :
  let asks := contains (py "leaderboard") (lower (default [] (ev_text e))) in
  db (show_help_or_leaderboard lower e w).2 = db w
  /\ (asks = false ->
      show_help_or_leaderboard lower e w
      = (Ok tt, set_sent (sent w ++ [Reply help_text (thread_of e)]) w))
  /\ (asks = true -> connections_work 1 w = false ->
      (show_help_or_leaderboard lower e w).1 = Raised SqliteError
      /\ sent (show_help_or_leaderboard lower e w).2 = sent w).
Proof.
  cbv zeta. unfold show_help_or_leaderboard.
  destruct (contains (py "leaderboard") (lower (default [] (ev_text e)))).
  - unfold bind, get_leaderboard.
    destruct (connections_work 1 w) eqn:H1.
    + rewrite transaction_ok by exact H1. cbn [fst snd].
      split; [|split; [discriminate|discriminate]].
      now destruct (select_leaderboard 10 (db w)).
    + rewrite transaction_fault by exact H1.
      split; [reflexivity|]. split; [discriminate|]. now intros _ _.
  - split; [reflexivity|]. split; [reflexivity | discriminate].
Qed.

(** X15: when the lower-cased text of a mention contains [leaderboard]
    and the connection works, the handler sends exactly one reply in the
    thread of the event: the invitation to give the first kudos if and
    only if the table has no row, and otherwise the leaderboard text for
    the rows of [get_leaderboard(10)], which are at most ten. *)
Theorem mention_leaderboard (lower : str -> str) (e : event) (w : world) :
  contains (py "leaderboard") (lower (default [] (ev_text e))) = true ->
  connections_work 1 w = true ->
  let rows := select_leaderboard 10 (db w) in
  exists t w',
    show_help_or_leaderboard lower e w = (Ok tt, w')
    /\ sent w' = sent w ++ [Reply t (thread_of e)]
    /\ (kudos (db w) = ∅ -> t = no_kudos_text)
    /\ (kudos (db w) <> ∅ -> t = leaderboard_text rows)
    /\ (get_leaderboard 10 w).1 = Ok rows
    /\ (length rows <= 10)%nat.
Proof.
  intros Hasks H1. cbv zeta. unfold show_help_or_leaderboard. rewrite Hasks.
  unfold bind, get_leaderboard. rewrite transaction_ok by exact H1.
  cbn [fst snd].
  assert (Hlen : (length (select_leaderboard 10 (db w)) <= 10)%nat).
  { pose proof (select_leaderboard_length 10 (db w)). lia. }
  pose proof (select_leaderboard_nil (db w)) as Hnil.
  destruct (select_leaderboard 10 (db w)) as [|row rows] eqn:E.
  - eexists _, _. split; [reflexivity|]. cbn.
    split; [reflexivity|]. split; [reflexivity|].
    split; [|now split]. intros Hne. now destruct Hne; apply Hnil.
  - eexists _, _. split; [reflexivity|]. cbn.
    split; [reflexivity|]. split; [|now repeat split].
    intros He. apply Hnil in He. discriminate.
Qed.

Lemma mention_leaderboard_witness :
  exists t w',
    show_help_or_leaderboard lower_ascii
      (Event (Some (py "U9")) (Some (py "<@UBOT> Leaderboard")) None
             (Some (py "17.5")))
      world0 = (Ok tt, w')
    /\ sent w' = [Reply t (Some (py "17.5"))]
    /\ t = no_kudos_text.
Proof.
  destruct (mention_leaderboard lower_ascii
              (Event (Some (py "U9")) (Some (py "<@UBOT> Leaderboard")) None
                     (Some (py "17.5")))
              world0 eq_refl eq_refl)
    as (t & w' & E & Hs & Ht & _).
  exists t, w'. split; [exact E|]. split; [exact Hs|]. now apply Ht.
Defined.

(** ** The extractor on any text *)

Lemma note_upto_stop (t note : str) :
  note_upto t = Some note ->
  forallb dot note = true
  /\ (drop (length note) t = []
      \/ drop (length note) t = [LF]
      \/ is_grant (drop (length note) t) = true).
Proof.
  revert note. induction t as [|c t IH]; intros note.
  - intros [= <-]. split; [reflexivity | now left].
  - cbn [note_upto]. destruct (is_grant (c :: t)) eqn:Hg.
    { intros [= <-]. split; [reflexivity|]. right. right. exact Hg. }
    destruct (c =? LF)%N eqn:Hc.
    { destruct t; [|discriminate]. intros [= <-].
      apply N.eqb_eq in Hc as ->. split; [reflexivity|]. right. now left. }
    destruct (note_upto t) as [note'|]; [|discriminate].
    intros [= <-]. destruct (IH note' eq_refl) as [Hd Hstop].
    split; [|exact Hstop]. cbn [forallb]. unfold dot at 1. now rewrite Hc.
Qed.

Lemma quiet_positions (u t : str) (i : nat) :
  quiet u t -> (i < length u)%nat -> is_grant (drop i (u ++ t)) = false.
Proof.
  revert i. induction u as [|c u IH]; intros i; [simpl; lia|].
  intros [Hc Hq] Hi. destruct i as [|i].
  - cbn [drop app]. unfold is_grant. now rewrite Hc.
  - cbn [drop app]. apply IH; [exact Hq | simpl in Hi; lia].
Qed.

(** X17: the place of a match in the text: the note of every match lies
    right after the marker and the whitespace that follows it, has no
    line feed, ends at the end of the text, before a line feed that ends
    the text, or where the next grant starts, and no grant starts inside
    it (a note never swallows a following grant). *)
Theorem match_anatomy (text name note : str) :
  In (name, note) (findall MENTION_PLUS_PATTERN text) ->
  exists pre ws1 ws2 rest,
    text = pre ++ ch "<" :: ch "@" :: name ++ ch ">" :: ws1
               ++ ch "+" :: ch "+" :: ws2 ++ note ++ rest
    /\ forallb is_space ws1 = true
    /\ forallb is_space ws2 = true
    /\ forallb dot note = true
    /\ (rest = [] \/ rest = [LF] \/ is_grant rest = true)
    /\ (forall i, (i < length note)%nat ->
          is_grant (drop i (note ++ rest)) = false).
Proof.
  rewrite findall_pattern. intros Hin.
  destruct (grants_matched_sound _ _ _ Hin) as (pre & s & -> & Hr).
  destruct (grant_head s) as [[name' rest']|] eqn:Hg; [|easy].
  destruct Hr as [-> Hn].
  destruct (grant_head_shape _ _ _ Hg) as (ws1 & -> & _ & _ & Hws1).
  destruct (note_upto_split _ _ Hn) as [Hl Hq].
  destruct (note_upto_stop _ _ Hn) as [Hdot Hstop].
  exists pre, ws1, (while_ is_space rest'), (drop (length note) (lstrip rest')).
  split; [|split; [exact Hws1|split; [apply while_all|split; [exact Hdot|split;
           [exact Hstop|]]]]].
  - rewrite <- Hl. unfold lstrip. now rewrite while_after.
  - intros i Hi. now apply quiet_positions.
Qed.

Lemma match_anatomy_witness :
  exists pre ws1 ws2 rest,
    two_grants = pre ++ ch "<" :: ch "@" :: py "U1" ++ ch ">" :: ws1
                     ++ ch "+" :: ch "+" :: ws2 ++ py "great job " ++ rest
    /\ (rest = [] \/ rest = [LF] \/ is_grant rest = true).
Proof.
  destruct (match_anatomy two_grants (py "U1") (py "great job "))
    as (pre & ws1 & ws2 & rest & E & _ & _ & _ & Hstop & _).
  - vm_compute. left. reflexivity.
  - now exists pre, ws1, ws2, rest.
Defined.

Lemma grants_matched_sublist (s : str) :
  (grants_matched s).*1 `sublist_of` (grants s).*1.
Proof.
  induction s as [|c s IH]; [reflexivity|].
  cbn [grants_matched grants].
  destruct (grant_head (c :: s)) as [[name rest]|]; [|exact IH].
  destruct (note_upto (lstrip rest)) as [note|]; cbn [fmap list_fmap];
    [now apply sublist_skip | now apply sublist_cons].
Qed.

(** X18: for every text, with or without line feeds, the names of the
    matches that the extractor returns are names of well-formed grants
    of the text, in the order of the text, and there are never more
    matches than well-formed grants. *)
Theorem matches_among_grants (text : str) :
  (findall MENTION_PLUS_PATTERN text).*1 `sublist_of` (grants text).*1
  /\ (length (findall MENTION_PLUS_PATTERN text) <= count_grants text)%nat.
Proof.
  rewrite findall_pattern. pose proof (grants_matched_sublist text) as H.
  split; [exact H|].
  apply sublist_length in H. rewrite !length_fmap in H.
  now rewrite <- grants_length.
Qed.

Lemma grants_matched_cons (c : N) (s : str) :
  grants_matched (c :: s) =
  match grant_head (c :: s) with
  | Some (name, rest) =>
      match note_upto (lstrip rest) with
      | Some note => (name, note) :: grants_matched s
      | None => grants_matched s
      end
  | None => grants_matched s
  end.
Proof. reflexivity. Qed.

Lemma note_upto_line_feed (a b : str) :
  forallb (fun c => negb (c =? ch "<")%N) a = true ->
  b <> [] ->
  note_upto (a ++ LF :: b) = None.
Proof.
  intros Ha Hb. induction a as [|x a IH].
  - cbn [app note_upto]. rewrite is_grant_space by reflexivity.
    rewrite N.eqb_refl. now destruct b.
  - cbn [forallb] in Ha. apply andb_prop in Ha as [Hx Ha].
    cbn [app note_upto]. unfold is_grant. rewrite is_grant_head.
    2:{ intros ->. discriminate. }
    destruct (x =? LF)%N; [now destruct a|].
    now rewrite (IH Ha).
Qed.

(** X19: a grant whose note runs over a line feed is lost, and the rest
    is found: when the text after the marker of a grant at the head of
    the text goes on, without [<], to a line feed that is followed by
    more text, the extractor returns no match for that grant, and it
    returns the matches of the text after that line feed. *)
Theorem line_feed_drops_grant (s name rest a b : str) :
  grant_head s = Some (name, rest) ->
  lstrip rest = a ++ LF :: b ->
  forallb (fun c => negb (c =? ch "<")%N) a = true ->
  b <> [] ->
  match_here MENTION_PLUS_PATTERN s = None
  /\ findall MENTION_PLUS_PATTERN s = findall MENTION_PLUS_PATTERN b.
Proof.
  intros Hg Hl Ha Hb.
  pose proof (note_upto_line_feed a b Ha Hb) as Hn. rewrite <- Hl in Hn.
  split; [now rewrite match_here_pattern, Hg, Hn|].
  rewrite !findall_pattern.
  destruct (grant_head_shape _ _ _ Hg) as (ws1 & Hs & _ & Hname & Hws1).
  pose proof (while_after is_space rest) as Hrest.
  change (after is_space rest) with (lstrip rest) in Hrest. rewrite Hl in Hrest.
  set (u := ch "@" :: name ++ ch ">" :: ws1 ++ ch "+" :: ch "+"
              :: while_ is_space rest ++ a ++ [LF]).
  assert (Hu : s = ch "<" :: u ++ b).
  { rewrite Hs. rewrite <- Hrest at 1. unfold u. simpl.
    repeat (rewrite <- ?app_assoc; simpl). reflexivity. }
  rewrite Hu in Hg |- *.
  rewrite grants_matched_cons, Hg, Hn.
  apply grants_matched_quiet.
  apply (quiet_other (fun x => negb (x =? ch "<")%N)); [reflexivity|].
  unfold u. simpl. rewrite forallb_app. simpl. rewrite forallb_app. simpl.
  rewrite !forallb_app. simpl.
  rewrite !andb_true_iff. repeat split; try assumption.
  - now apply (forallb_other upper_or_digit).
  - now apply (forallb_other is_space).
  - apply (forallb_other is_space); [reflexivity | apply while_all].
Qed.

Lemma line_feed_drops_grant_witness :
  findall MENTION_PLUS_PATTERN
    (py "<@U1> ++ line one" ++ [LF] ++ py "and <@U2> ++ more")
  = findall MENTION_PLUS_PATTERN (py "and <@U2> ++ more").
Proof.
  refine (proj2 (line_feed_drops_grant _ (py "U1")
                   (py " line one" ++ [LF] ++ py "and <@U2> ++ more")
                   (py "line one") (py "and <@U2> ++ more") _ _ _ _));
    reflexivity || discriminate.
Defined.

(** X20: text in front that has no [<] is ignored: the extractor returns
    for it and what follows exactly the matches of what follows. *)
Theorem text_before_ignored (pre text : str) :
  forallb (fun c => negb (c =? ch "<")%N) pre = true ->
  findall MENTION_PLUS_PATTERN (pre ++ text)
  = findall MENTION_PLUS_PATTERN text.
Proof.
  intros Hpre. rewrite !findall_pattern. apply grants_matched_quiet.
  now apply (quiet_other (fun x => negb (x =? ch "<")%N)).
Qed.

Lemma text_before_ignored_witness :
  findall MENTION_PLUS_PATTERN (py "well done ++ " ++ two_grants)
  = findall MENTION_PLUS_PATTERN two_grants.
Proof.
  apply text_before_ignored. reflexivity.
Defined.

(** ** Messages written in the format of the pattern *)

Example render_comment_example :
  render_grants [(py "U123", py "great work "); (py "U456", py "awesome job")]
  = py "<@U123> ++ great work <@U456> ++ awesome job".
Proof. vm_compute. reflexivity. Qed.

Lemma while_run p (u t : str) (c : N) :
  forallb p u = true -> p c = false -> while_ p (u ++ c :: t) = u.
Proof.
  intros Hu Hc. induction u as [|x u IH]; simpl; [now rewrite Hc|].
  simpl in Hu. apply andb_prop in Hu as [Hx Hu]. now rewrite Hx, IH.
Qed.

Lemma grant_head_render (name rest : str) :
  name <> [] -> forallb upper_or_digit name = true ->
  grant_head (ch "<" :: ch "@" :: name ++ ch ">" :: ch " " :: ch "+" :: ch "+" :: rest)
  = Some (name, rest).
Proof.
  intros Hne Hname. unfold grant_head.
  change ((ch "<" =? ch "<")%N && (ch "@" =? ch "@")%N) with true. cbv iota.
  rewrite while_run by (exact Hname || reflexivity).
  rewrite after_run by exact Hname.
  destruct name as [|n0 name]; [easy|]. reflexivity.
Qed.

Lemma note_upto_plain (note rest : str) :
  forallb (fun c => dot c && negb (c =? ch "<")%N) note = true ->
  rest = [] \/ is_grant rest = true ->
  note_upto (note ++ rest) = Some note.
Proof.
  intros Hnote Hrest. induction note as [|x note IH].
  - destruct Hrest as [->|Hg]; [reflexivity|].
    destruct rest as [|c rest]; [reflexivity|].
    cbn [app note_upto]. now rewrite Hg.
  - cbn [forallb] in Hnote. apply andb_prop in Hnote as [Hx Hnote].
    apply andb_prop in Hx as [Hdot Hlt].
    cbn [app note_upto]. unfold is_grant. rewrite is_grant_head.
    2:{ intros ->. discriminate. }
    unfold dot in Hdot. apply negb_true_iff in Hdot. rewrite Hdot.
    now rewrite (IH Hnote).
Qed.

Lemma render_grants_head (gs : list (str * str)) :
  Forall (fun g => plain_grant g = true) gs ->
  render_grants gs = [] \/ is_grant (render_grants gs) = true.
Proof.
  intros [|[name note] gs' Hg _]; [now left|]. right.
  unfold plain_grant in Hg. cbn [fst snd] in Hg.
  apply andb_prop in Hg as [Hg _]. apply andb_prop in Hg as [Hg _].
  apply andb_prop in Hg as [Hne Hname].
  cbn [render_grants]. unfold render_grant, is_grant. cbn [fst snd app].
  rewrite <- app_assoc. cbn [app].
  rewrite grant_head_render; [reflexivity | now destruct name | exact Hname].
Qed.

(** X21: a message written in the format of the pattern is read back
    completely: for every list of grants with names of upper-case
    letters and digits and with one-line notes that have no [<] and do
    not start with whitespace, the extractor returns, for the grants
    written one after the other as [<@NAME> ++ note], exactly that list,
    names and notes unchanged and in order. *)
Theorem render_findall (gs : list (str * str)) :
  Forall (fun g => plain_grant g = true) gs ->
  findall MENTION_PLUS_PATTERN (render_grants gs) = gs.
Proof.
  rewrite findall_pattern.
  induction gs as [|[name note] gs IH]; intros Hall; [reflexivity|].
  pose proof (Forall_inv Hall) as Hg.
  pose proof (Forall_inv_tail Hall) as Hgs.
  pose proof (render_grants_head gs Hgs) as Hhead.
  specialize (IH Hgs).
  unfold plain_grant in Hg. cbn [fst snd] in Hg.
  apply andb_prop in Hg as [Hg Hstart]. apply andb_prop in Hg as [Hg Hnote].
  apply andb_prop in Hg as [Hne Hname].
  set (R := render_grants gs) in *.
  assert (Htext : render_grants ((name, note) :: gs)
                  = ch "<" :: ch "@" :: name ++ ch ">" :: ch " " :: ch "+"
                      :: ch "+" :: ch " " :: note ++ R).
  { cbn [render_grants]. fold R. unfold render_grant. cbn [fst snd app].
    rewrite <- app_assoc. reflexivity. }
  rewrite Htext, grants_matched_cons.
  rewrite grant_head_render; [| now destruct name | exact Hname].
  assert (Hl : lstrip (ch " " :: note ++ R) = note ++ R).
  { unfold lstrip. cbn [after].
    change (is_space (ch " ")) with true. cbv iota.
    destruct note as [|x note].
    - cbn [app]. destruct Hhead as [->|Hgr]; [reflexivity|].
      destruct R as [|c R']; [reflexivity|]. cbn [after].
      destruct (is_space c) eqn:Ec; [|reflexivity].
      now rewrite is_grant_space in Hgr.
    - cbn [app after]. apply negb_true_iff in Hstart. now rewrite Hstart. }
  rewrite Hl, (note_upto_plain note R Hnote Hhead). f_equal.
  rewrite <- IH.
  replace (ch "@" :: name ++ ch ">" :: ch " " :: ch "+" :: ch "+" :: ch " "
             :: note ++ R)
    with ((ch "@" :: name ++ ch ">" :: ch " " :: ch "+" :: ch "+" :: ch " "
             :: note) ++ R).
  2:{ simpl. repeat (rewrite <- ?app_assoc; simpl). reflexivity. }
  apply grants_matched_quiet.
  apply (quiet_other (fun x => negb (x =? ch "<")%N)); [reflexivity|].
  simpl. rewrite forallb_app. simpl.
  rewrite !andb_true_iff. split; [now apply (forallb_other upper_or_digit)|].
  repeat split.
  clear -Hnote. induction note as [|x note IHn]; [reflexivity|].
  cbn [forallb] in *. apply andb_prop in Hnote as [Hx Hnote].
  apply andb_prop in Hx as [_ Hx]. now rewrite Hx, IHn.
Qed.

Lemma render_findall_witness :
  findall MENTION_PLUS_PATTERN
    (render_grants [(py "U123", py "great work "); (py "U456", py "awesome job")])
  = [(py "U123", py "great work "); (py "U456", py "awesome job")].
Proof.
  apply render_findall. repeat constructor.
Defined.
